(** * The MNIST example's training and evaluation driver (mnist/main.py)

    A shallow embedding of [train], [test] and the [__main__] block of
    mnist/main.py, with the library calls they make (torch, torchvision)
    taken through an interface, and the properties of the control loop and
    of its bookkeeping: learning-rate schedule, dry run, loss and accuracy
    accounting, shuffling, persistence.

    Python floats are idealised as rationals ([Q]); Python integers are [Z];
    exceptions are an error outcome that keeps the state reached and the
    output produced so far. *)

From Stdlib Require Import QArith Qpower Qabs Lqa.
From stdpp Require Import base numbers strings vector fin finite gmap list.

Set Default Proof Using "Type".

(** ** Python values and exceptions *)

Inductive Error : Type :=
| ZeroDivisionError
| ValueError (msg : string).

Inductive Outcome (A : Type) : Type :=
| Ok (a : A)
| Raise (e : Error).
Arguments Ok {A} a.
Arguments Raise {A} e.

(** Values held by the keyword dictionaries of the data loaders. *)
Inductive Value : Type :=
| VInt (z : Z)
| VBool (b : bool).

(** [range(lo, hi)] *)
Definition py_range (lo hi : Z) : list Z := seqZ lo (hi - lo).

(** ** Data model *)

(** Ten digit classes: a label is a class index in 0..9 and the model's
    output for one image is one log-probability per class. *)
Definition num_classes : nat := 10.
Definition Label : Type := fin num_classes.
Definition Output : Type := vec Q num_classes.

(** An image after the transform: its pixel values. *)
Definition Image : Type := list Q.

Record Sample : Type := { image : Image; label : Label }.

(** [transforms.ToTensor()]: a byte pixel becomes a float in [0, 1];
    [transforms.Normalize((0.1307,), (0.3081,))]: subtract the mean and divide
    by the standard deviation. *)
Definition ToTensor (raw : list Z) : Image := (λ b, inject_Z b / 255)%Q <$> raw.
Definition Normalize (mean std : Q) (x : Image) : Image := (λ v, (v - mean) / std)%Q <$> x.
Definition transform (raw : list Z) : Image :=
  Normalize (1307 # 10000) (3081 # 10000) (ToTensor raw).

(** The parsed command line ([args]). *)
Record Args : Type := {
  batch_size : Z;
  test_batch_size : Z;
  epochs : Z;
  lr : Q;
  gamma : Q;
  no_cuda : bool;
  dry_run : bool;
  seed : Z;
  log_interval : Z;
  save_model : bool
}.

(** The parser's defaults. *)
Definition default_args : Args :=
  {| batch_size := 64; test_batch_size := 1000; epochs := 14; lr := 1; gamma := 7 # 10;
     no_cuda := false; dry_run := false; seed := 1; log_interval := 10;
     save_model := false |}.

(** What the program reads from its surroundings: whether an accelerator is
    there ([torch.cuda.is_available()]) and the two raw dataset splits
    ([datasets.MNIST(..., train = True)] and [train = False]), as pixel bytes
    with their labels. *)
Record Env : Type := {
  cuda_available : bool;
  train_raw : list (list Z * Label);
  test_raw : list (list Z * Label)
}.

Definition load_split (raw : list (list Z * Label)) : list Sample :=
  (λ p, {| image := transform p.1; label := p.2 |}) <$> raw.

(** ** Batching *)

Section Chunks.
Context {A : Type}.

(** Consecutive slices of [n] elements, the last one possibly shorter. *)
Fixpoint chunks_fuel (fuel n : nat) (l : list A) : list (list A) :=
  match fuel with
  | O => []
  | S fuel' =>
      match l with
      | [] => []
      | _ :: _ => take n l :: chunks_fuel fuel' n (drop n l)
      end
  end.

Definition chunks (n : positive) (l : list A) : list (list A) :=
  chunks_fuel (length l) (Pos.to_nat n) l.
End Chunks.

(** [torch.utils.data.DataLoader]: the dataset, the batch size and whether a
    fresh permutation is drawn for every iteration over the loader. The
    constructor refuses a batch size that is not positive, so the record
    holds a [positive]. *)
Record DataLoader : Type := {
  dataset : list Sample;
  ld_batch_size : positive;
  ld_shuffle : bool
}.

Definition kw_int (kw : gmap string Value) (key : string) (default : Z) : Outcome Z :=
  match kw !! key with
  | None => Ok default
  | Some (VInt z) => Ok z
  | Some (VBool _) => Raise (ValueError "an integer is required")
  end.

Definition kw_bool (kw : gmap string Value) (key : string) (default : bool) : Outcome bool :=
  match kw !! key with
  | None => Ok default
  | Some (VBool b) => Ok b
  | Some (VInt _) => Raise (ValueError "a boolean is required")
  end.

(** [DataLoader(dataset, **kwargs)]: [batch_size] defaults to 1 and [shuffle]
    to [False]; [num_workers] and [pin_memory] change neither the batches
    nor their order. *)
Definition new_DataLoader (ds : list Sample) (kw : gmap string Value) : Outcome DataLoader :=
  match kw_int kw "batch_size" 1, kw_bool kw "shuffle" false with
  | Ok bs, Ok sh =>
      match bs with
      | Zpos p => Ok {| dataset := ds; ld_batch_size := p; ld_shuffle := sh |}
      | _ => Raise (ValueError "batch_size should be a positive integer value")
      end
  | Raise e, _ => Raise e
  | _, Raise e => Raise e
  end.

(** [len(loader)]: the number of batches, the dataset size divided by the
    batch size and rounded up. *)
Definition loader_len (ld : DataLoader) : Z :=
  (Z.of_nat (length (dataset ld)) + Z.pos (ld_batch_size ld) - 1) / Z.pos (ld_batch_size ld).

(** ** Loss and prediction *)

Definition Qsum (l : list Q) : Q := foldr Qplus 0%Q l.

(** The negative log-likelihood of one sample: minus the log-probability the
    output gives to the true class. *)
Definition nll (out : Output) (target : Label) : Q := (- (out !!! target))%Q.

Definition nll_each (output : list Output) (target : list Label) : list Q :=
  zip_with nll output target.

(** [F.nll_loss(output, target, reduction = 'sum').item()] *)
Definition nll_loss_sum (output : list Output) (target : list Label) : Q :=
  Qsum (nll_each output target).

(** [F.nll_loss(output, target).item()], the mean over the batch. *)
Definition nll_loss_mean (output : list Output) (target : list Label) : Q :=
  (nll_loss_sum output target / inject_Z (Z.of_nat (length target)))%Q.

(** [output.argmax(dim = 1)] for one row: the first class of greatest
    log-probability. *)
Definition argmax (out : Output) : Label :=
  foldl (λ best i, if Qlt_le_dec (out !!! best) (out !!! i) then i else best)
        (0%fin : Label) (enum Label).

(** [pred.eq(target.view_as(pred)).sum().item()] *)
Definition count_correct (pred target : list Label) : Z :=
  Z.of_nat (length (filter (λ p, p.1 = p.2) (zip pred target))).

(** ** The library interface

    What the driver needs from torch. The model class comes from model.py and
    the optimizer, the random generator and the sampler from torch; the
    driver treats them as opaque. *)

(** Modelled from the spec: model.py (the class [CNN]) is not part of the
    sources at hand. Following sections 2 and 4.3, the model is a function
    from images to per-class log-probabilities that reads the parameters; in
    evaluation mode dropout is off and the function is deterministic
    ([predict]), in training mode it draws from the random generator
    ([forward_train]). [cnn_init] is the constructor [CNN()], [grad_nll] the
    gradient of the batch's mean loss that [loss.backward()] adds to the
    gradient buffers.

    [sample_order shuffle g l] is the order in which one iteration over a
    loader visits the dataset [l], with the generator as the iterator's draws
    leave it: a permutation of the dataset, and the dataset itself without
    [shuffle]. *)
Class Torch : Type := {
  Params : Type;
  Grads : Type;
  OptState : Type;
  Rng : Type;
  manual_seed : Z → Rng;
  cnn_init : Rng → Params * Rng;
  predict : Params → Image → Output;
  forward_train : Params → Rng → Image → Output * Rng;
  grad_nll : Params → Rng → list Sample → Grads;
  grads_zero : Grads;
  grads_add : Grads → Grads → Grads;
  adadelta_init : Params → OptState;
  adadelta_step : Q → Params → Grads → OptState → Params * OptState;
  sample_order : bool → Rng → list Sample → list Sample * Rng;
  sample_order_perm : ∀ sh g l, (sample_order sh g l).1 ≡ₚ l;
  sample_order_sequential : ∀ g l, (sample_order false g l).1 = l
}.

Section Driver.
Context `{T : Torch}.

(** ** State, observations and the monad of the program *)

(** The objects the program mutates: the model (parameters, mode flag,
    gradient buffers), the optimizer (its own state and the learning rate
    of its parameter group), the scheduler's epoch counter, the random
    generator and the files written. *)
Record World : Type := {
  params : Params;
  training : bool;
  grads : Grads;
  opt_state : OptState;
  cur_lr : Q;
  last_epoch : Z;
  rng : Rng;
  files : gmap string Params
}.

(** What a run does that can be observed from outside, in order: the two
    printed lines ([Progress], [Summary]) and the calls that start a pass,
    consume a batch, move the schedule or write the file. *)
Inductive Event : Type :=
| TrainPass (epoch : Z)
| OptimizerStep (epoch batch_idx : Z) (batch : list Sample) (step_lr : Q)
| Progress (epoch seen total : Z) (pct loss : Q)
| EvalPass
| EvalBatch (batch : list Sample)
| Summary (avg_loss : Q) (correct total : Z) (pct : Q)
| ScheduleStep (lr_before lr_after : Q)
| Saved (file : string) (state : Params).

Record Run (A : Type) : Type := {
  outcome : Outcome A;
  final : World;
  emitted : list Event
}.
Arguments outcome {A} r.
Arguments final {A} r.
Arguments emitted {A} r.

Definition M (A : Type) : Type := World → Run A.

Definition ret {A} (a : A) : M A :=
  λ w, {| outcome := Ok a; final := w; emitted := [] |}.

Definition bind {A B} (m : M A) (k : A → M B) : M B :=
  λ w,
    let r := m w in
    match outcome r with
    | Ok a =>
        let r' := k a (final r) in
        {| outcome := outcome r'; final := final r'; emitted := emitted r ++ emitted r' |}
    | Raise e => {| outcome := Raise e; final := final r; emitted := emitted r |}
    end.

Definition raise {A} (e : Error) : M A :=
  λ w, {| outcome := Raise e; final := w; emitted := [] |}.

Definition lift {A} (o : Outcome A) : M A :=
  match o with Ok a => ret a | Raise e => raise e end.

Definition get : M World := λ w, {| outcome := Ok w; final := w; emitted := [] |}.
Definition put (w : World) : M unit := λ _, {| outcome := Ok tt; final := w; emitted := [] |}.
Definition emit (e : Event) : M unit :=
  λ w, {| outcome := Ok tt; final := w; emitted := [e] |}.

#[global] Instance M_ret : MRet M := @ret.
#[global] Instance M_bind : MBind M := λ A B k m, bind m k.

Local Open Scope Z_scope.

(** [a % b] on integers and [a / b] on floats, which raise on a zero
    divisor. *)
Definition py_mod (a b : Z) : M Z :=
  if decide (b = 0) then raise ZeroDivisionError else ret (a `mod` b).

Definition py_truediv (a b : Q) : M Q :=
  if Qeq_bool b 0 then raise ZeroDivisionError else ret (a / b)%Q.

Definition len {A} (l : list A) : Z := Z.of_nat (length l).

(** ** The calls into the library *)

(** Field updates. *)
Definition with_training (b : bool) (w : World) : World :=
  {| params := params w; training := b; grads := grads w; opt_state := opt_state w;
     cur_lr := cur_lr w; last_epoch := last_epoch w; rng := rng w; files := files w |}.

Definition with_rng (g : Rng) (w : World) : World :=
  {| params := params w; training := training w; grads := grads w;
     opt_state := opt_state w; cur_lr := cur_lr w; last_epoch := last_epoch w;
     rng := g; files := files w |}.

Definition with_grads (gr : Grads) (w : World) : World :=
  {| params := params w; training := training w; grads := gr;
     opt_state := opt_state w; cur_lr := cur_lr w; last_epoch := last_epoch w;
     rng := rng w; files := files w |}.

Definition with_files (f : gmap string Params) (w : World) : World :=
  {| params := params w; training := training w; grads := grads w;
     opt_state := opt_state w; cur_lr := cur_lr w; last_epoch := last_epoch w;
     rng := rng w; files := f |}.

Definition with_model (p : Params) (o : OptState) (w : World) : World :=
  {| params := p; training := training w; grads := grads w; opt_state := o;
     cur_lr := cur_lr w; last_epoch := last_epoch w; rng := rng w; files := files w |}.

Definition with_schedule (l : Q) (e : Z) (w : World) : World :=
  {| params := params w; training := training w; grads := grads w;
     opt_state := opt_state w; cur_lr := l; last_epoch := e; rng := rng w;
     files := files w |}.

(** [model.train()] and [model.eval()] *)
Definition model_train : M unit := w ← get; put (with_training true w).
Definition model_eval : M unit := w ← get; put (with_training false w).

Definition set_rng (g : Rng) : M unit := w ← get; put (with_rng g w).
Definition set_grads (gr : Grads) : M unit := w ← get; put (with_grads gr w).

(** The training-mode forward pass over a batch, image by image, each
    drawing its dropout mask from the generator. *)
Fixpoint forward_train_batch (p : Params) (g : Rng) (data : list Image) : list Output * Rng :=
  match data with
  | [] => ([], g)
  | x :: data' =>
      let '(o, g1) := forward_train p g x in
      let '(os, g2) := forward_train_batch p g1 data' in
      (o :: os, g2)
  end.

(** [model(data)] *)
Definition model_call (data : list Image) : M (list Output) :=
  w ← get;
  if training w then
    let og := forward_train_batch (params w) (rng w) data in
    set_rng og.2 ;; ret og.1
  else ret (predict (params w) <$> data).

(** [optimizer.zero_grad()] *)
Definition zero_grad : M unit := set_grads grads_zero.

(** [loss.backward()] for the loss of [batch] whose forward pass started
    from generator state [g0]: the gradient is added to the buffers. *)
Definition backward (g0 : Rng) (batch : list Sample) : M unit :=
  w ← get;
  set_grads (grads_add (grads w) (grad_nll (params w) g0 batch)).

(** [optimizer.step()]: one Adadelta update with the learning rate of the
    parameter group. *)
Definition optimizer_step (epoch batch_idx : Z) (batch : list Sample) : M unit :=
  w ← get;
  let po := adadelta_step (cur_lr w) (params w) (grads w) (opt_state w) in
  put (with_model po.1 po.2 w) ;;
  emit (OptimizerStep epoch batch_idx batch (cur_lr w)).

(** [StepLR(optimizer, step_size, gamma)] and its [step()]: the epoch
    counter goes up by one and the learning rate is multiplied by [gamma]
    whenever the counter is a non-zero multiple of [step_size], a positive
    number of epochs. *)
Record StepLR : Type := { step_size : positive; sched_gamma : Q }.

Definition next_lr (s : StepLR) (w : World) : Q :=
  let e := last_epoch w + 1 in
  if decide (e = 0 ∨ e `mod` Z.pos (step_size s) ≠ 0) then cur_lr w
  else (cur_lr w * sched_gamma s)%Q.

Definition scheduler_step (s : StepLR) : M unit :=
  w ← get;
  put (with_schedule (next_lr s w) (last_epoch w + 1) w) ;;
  emit (ScheduleStep (cur_lr w) (next_lr s w)).

(** [torch.save(model.state_dict(), file)]: the file is overwritten. *)
Definition torch_save (file : string) : M unit :=
  w ← get;
  put (with_files (<[file := params w]> (files w)) w) ;;
  emit (Saved file (params w)).

(** Starting an iteration over a loader: the batches of the dataset in the
    order the sampler gives, which is the dataset's own unless the loader
    shuffles. *)
Definition iter_loader (ld : DataLoader) : M (list (list Sample)) :=
  w ← get;
  let lg := sample_order (ld_shuffle ld) (rng w) (dataset ld) in
  set_rng lg.2 ;; ret (chunks (ld_batch_size ld) lg.1).

(** ** [train] *)

(** The body of the [for] loop over [enumerate(train_loader)], on the batches
    still to come; [.to(device)] moves tensors and is left out. The state is
    read before the forward pass only to name the generator state that fixes
    the dropout masks of the graph [loss.backward()] goes through. *)
Fixpoint train_loop (args : Args) (train_loader : DataLoader) (epoch batch_idx : Z)
    (batches : list (list Sample)) : M unit :=
  match batches with
  | [] => ret tt
  | batch :: rest =>
      let data := image <$> batch in
      let target := label <$> batch in
      zero_grad ;;
      w ← get;
      output ← model_call data;
      let loss := nll_loss_mean output target in
      backward (rng w) batch ;;
      optimizer_step epoch batch_idx batch ;;
      r ← py_mod batch_idx (log_interval args);
      if decide (r = 0) then
        pct ← py_truediv (100 * inject_Z batch_idx)%Q (inject_Z (loader_len train_loader));
        emit (Progress epoch (batch_idx * len data) (len (dataset train_loader)) pct loss) ;;
        if dry_run args then ret tt
        else train_loop args train_loader epoch (batch_idx + 1) rest
      else train_loop args train_loader epoch (batch_idx + 1) rest
  end.

Definition train (args : Args) (train_loader : DataLoader) (epoch : Z) : M unit :=
  model_train ;;
  emit (TrainPass epoch) ;;
  batches ← iter_loader train_loader;
  train_loop args train_loader epoch 0 batches.

(** ** [test] *)

(** The body of the [for] loop, with the two accumulators [test_loss] and
    [correct]. Under [torch.no_grad()] no graph is built; the loop calls
    neither [backward] nor the optimizer. *)
Fixpoint test_loop (batches : list (list Sample)) (test_loss : Q) (correct : Z) : M (Q * Z) :=
  match batches with
  | [] => ret (test_loss, correct)
  | batch :: rest =>
      let data := image <$> batch in
      let target := label <$> batch in
      emit (EvalBatch batch) ;;
      output ← model_call data;
      let test_loss := (test_loss + nll_loss_sum output target)%Q in
      let pred := argmax <$> output in
      let correct := correct + count_correct pred target in
      test_loop rest test_loss correct
  end.

Definition test (test_loader : DataLoader) : M unit :=
  model_eval ;;
  emit EvalPass ;;
  batches ← iter_loader test_loader;
  '(test_loss, correct) ← test_loop batches 0%Q 0;
  test_loss ← py_truediv test_loss (inject_Z (len (dataset test_loader)));
  pct ← py_truediv (100 * inject_Z correct)%Q (inject_Z (len (dataset test_loader)));
  emit (Summary test_loss correct (len (dataset test_loader)) pct).

(** ** The [__main__] block *)

Fixpoint for_each {A} (l : list A) (body : A → M unit) : M unit :=
  match l with
  | [] => ret tt
  | x :: l' => body x ;; for_each l' body
  end.

Definition epoch_body (args : Args) (train_loader test_loader : DataLoader)
    (scheduler : StepLR) (epoch : Z) : M unit :=
  train args train_loader epoch ;;
  test test_loader ;;
  scheduler_step scheduler.

Definition run_epochs (args : Args) (train_loader test_loader : DataLoader)
    (scheduler : StepLR) : M unit :=
  for_each (py_range 1 (epochs args + 1)) (epoch_body args train_loader test_loader scheduler).

(** The epoch loop and the final save (the last lines of the block). *)
Definition driver (args : Args) (train_loader test_loader : DataLoader)
    (scheduler : StepLR) : M unit :=
  run_epochs args train_loader test_loader scheduler ;;
  if save_model args then torch_save "mnist_cnn.pt" else ret tt.

Definition use_cuda (args : Args) (env : Env) : bool :=
  negb (no_cuda args) && cuda_available env.

Definition cuda_kwargs : gmap string Value :=
  {[ "num_workers" := VInt 1; "pin_memory" := VBool true; "shuffle" := VBool true ]}.

(** [d.update(other)]: the entries of [other] win. *)
Definition dict_update (d other : gmap string Value) : gmap string Value := other ∪ d.

Definition train_kwargs (args : Args) (env : Env) : gmap string Value :=
  let kw := {[ "batch_size" := VInt (batch_size args) ]} in
  if use_cuda args env then dict_update kw cuda_kwargs else kw.

Definition test_kwargs (args : Args) (env : Env) : gmap string Value :=
  let kw := {[ "batch_size" := VInt (test_batch_size args) ]} in
  if use_cuda args env then dict_update kw cuda_kwargs else kw.

(** [model = CNN().to(device)]: a model with fresh parameters, in training
    mode, without gradients. *)
Definition new_model : M unit :=
  w ← get;
  let pg := cnn_init (rng w) in
  put {| params := pg.1; training := true; grads := grads_zero; opt_state := opt_state w;
         cur_lr := cur_lr w; last_epoch := last_epoch w; rng := pg.2; files := files w |}.

(** [optim.Adadelta(model.parameters(), lr = l)], which refuses a negative
    learning rate. *)
Definition new_Adadelta (l : Q) : M unit :=
  if Qle_bool 0 l then
    w ← get;
    put {| params := params w; training := training w; grads := grads w;
           opt_state := adadelta_init (params w); cur_lr := l;
           last_epoch := last_epoch w; rng := rng w; files := files w |}
  else raise (ValueError "Invalid learning rate").

(** [StepLR(optimizer, step_size, gamma)]: the counter starts at 0 and the
    learning rate is the optimizer's. *)
Definition new_StepLR (step : positive) (g : Q) : M StepLR :=
  w ← get;
  put (with_schedule (cur_lr w) 0 w) ;;
  ret {| step_size := step; sched_gamma := g |}.

(** The block, from [torch.manual_seed(args.seed)] on; the device only says
    where tensors live and [.to(device)] is left out. With the seeding, the
    model, the optimizer and the scheduler everything the program mutates is
    created anew, only the files are inherited. *)
Definition main (args : Args) (env : Env) : M unit :=
  set_rng (manual_seed (seed args)) ;;
  train_loader ← lift (new_DataLoader (load_split (train_raw env)) (train_kwargs args env));
  test_loader ← lift (new_DataLoader (load_split (test_raw env)) (test_kwargs args env));
  new_model ;;
  new_Adadelta (lr args) ;;
  scheduler ← new_StepLR 1 (gamma args);
  driver args train_loader test_loader scheduler.

End Driver.

Arguments outcome {T A} r.
Arguments final {T A} r.
Arguments emitted {T A} r.

(** ** A small instance of the interface, to run the driver on

    One weight, a generator that counts its draws, a shuffle that reverses
    the list, and a model that gives class [i] the log-probability
    [-(i + |weight|)]. *)
Module Toy.

Definition toy_predict (p : Q) (x : Image) : Output :=
  vmap (λ i : Label, (- (inject_Z (Z.of_nat (fin_to_nat i)) + Qabs p))%Q)
       (fun_to_vec (λ i : Label, i)).

Definition toy_order (shuffle : bool) (g : Z) (l : list Sample) : list Sample * Z :=
  (if shuffle then reverse l else l, (g + 1)%Z).

Definition toy_order_perm (shuffle : bool) (g : Z) (l : list Sample) :
    (toy_order shuffle g l).1 ≡ₚ l :=
  match shuffle with
  | true => reverse_Permutation l
  | false => reflexivity l
  end.

#[export] Instance toy : Torch := {|
  Params := Q;
  Grads := Q;
  OptState := nat;
  Rng := Z;
  manual_seed := λ s, s;
  cnn_init := λ g, (0%Q, (g + 1)%Z);
  predict := toy_predict;
  forward_train := λ p g x, (toy_predict p x, (g + 1)%Z);
  grad_nll := λ p g batch, inject_Z (Z.of_nat (length batch));
  grads_zero := 0%Q;
  grads_add := Qplus;
  adadelta_init := λ _, O;
  adadelta_step := λ l p gr o, ((p - l * gr)%Q, S o);
  sample_order := toy_order;
  sample_order_perm := toy_order_perm;
  sample_order_sequential := λ g l, eq_refl
|}.

Definition blank : World :=
  {| params := 0%Q; training := false; grads := 0%Q; opt_state := O; cur_lr := 0%Q;
     last_epoch := 0; rng := 0%Z; files := ∅ |}.

(** Raw samples: one pixel, and the label. *)
Definition raw (px : Z) (l : nat) : list Z * Label :=
  ([px], default (0%fin : Label) (enum Label !! l)).

End Toy.

(** ** Reading a run *)

Section Reading.
Context `{T : Torch}.

Local Open Scope Z_scope.

(** The passes of a run: the events that start a pass, move the schedule
    or write the file, without their payload. *)
Inductive Phase : Type :=
| PTrain (epoch : Z)
| PEval
| PSchedule
| PSave (file : string).

Definition phase_of (e : Event) : option Phase :=
  match e with
  | TrainPass k => Some (PTrain k)
  | EvalPass => Some PEval
  | ScheduleStep _ _ => Some PSchedule
  | Saved f _ => Some (PSave f)
  | _ => None
  end.

Definition shape (evs : list Event) : list Phase := omap phase_of evs.

(** One epoch is a training pass, an evaluation pass and a schedule step;
    [count] epochs in a row start with epoch [first]. *)
Definition epoch_shape (k : Z) : list Phase := [PTrain k; PEval; PSchedule].

Definition epochs_shape (first count : Z) : list Phase :=
  concat (epoch_shape <$> seqZ first count).

(** The learning rates before and after each schedule step, in order. *)
Definition schedule_steps (evs : list Event) : list (Q * Q) :=
  omap (λ e, match e with ScheduleStep a b => Some (a, b) | _ => None end) evs.

(** The events of a training pass of epoch [k] run at learning rate [l],
    and those of an evaluation pass, after the event that starts the
    pass. *)
Definition train_event (k : Z) (l : Q) (e : Event) : Prop :=
  match e with
  | OptimizerStep k' _ _ l' => k' = k ∧ l' = l
  | Progress k' _ _ _ _ => k' = k
  | _ => False
  end.

Definition eval_event (e : Event) : Prop :=
  match e with
  | EvalBatch _ | Summary _ _ _ _ => True
  | _ => False
  end.

(** The training batches a run took an optimizer step on, with their
    epochs and indices, and the evaluation batches it scored, both in
    order. *)
Definition train_batches (evs : list Event) : list (Z * Z * list Sample) :=
  omap (λ e, match e with OptimizerStep k i b _ => Some (k, i, b) | _ => None end) evs.

Definition eval_batches (evs : list Event) : list (list Sample) :=
  omap (λ e, match e with EvalBatch b => Some b | _ => None end) evs.

Definition is_progress (e : Event) : bool :=
  match e with Progress _ _ _ _ _ => true | _ => false end.

Definition progress_lines (evs : list Event) : list Event :=
  filter (λ e, is_progress e) evs.

Definition saves (evs : list Event) : list (string * Params) :=
  omap (λ e, match e with Saved f p => Some (f, p) | _ => None end) evs.

(** The batches one iteration over a loader yields when the generator is
    in state [g]. *)
Definition loader_batches (ld : DataLoader) (g : Rng) : list (list Sample) :=
  chunks (ld_batch_size ld) (sample_order (ld_shuffle ld) g (dataset ld)).1.

(** The scheduler and the state with which [main] enters the epoch loop. *)
Definition scheduler_of (args : Args) : StepLR :=
  {| step_size := 1; sched_gamma := gamma args |}.

Definition fresh_world (args : Args) (w : World) : World :=
  let pg := cnn_init (manual_seed (seed args)) in
  {| params := pg.1; training := true; grads := grads_zero;
     opt_state := adadelta_init pg.1; cur_lr := lr args; last_epoch := 0;
     rng := pg.2; files := files w |}.

(** The learning rate in force during epoch [k] (counted from 1): the
    initial rate after [k - 1] multiplications by [gamma]. *)
Definition lr_of_epoch (args : Args) (k : Z) : Q :=
  Nat.iter (Z.to_nat (k - 1)) (λ x, (x * gamma args)%Q) (lr args).

(** An optimizer step belongs to one of the [count] epochs from [first] on
    and runs at that epoch's learning rate. *)
Definition step_of_epochs (args : Args) (first count : Z) (e : Event) : Prop :=
  match e with
  | OptimizerStep k _ _ l => first ≤ k < first + count ∧ l = lr_of_epoch args k
  | _ => True
  end.

(** The learning rates around the schedule step that ends epoch [k]. *)
Definition schedule_of_epoch (args : Args) (k : Z) : Q * Q :=
  (lr_of_epoch args k, lr_of_epoch args (k + 1)).

(** The loss of one evaluation sample under parameters [p]. *)
Definition sample_nll (p : Params) (s : Sample) : Q :=
  nll (predict p (image s)) (label s).

(** Samples handed to the optimizer before batch [i] of [batches], and up
    to and including it. *)
Definition samples_before (batches : list (list Sample)) (i : nat) : Z :=
  len (concat (take i batches)).

Definition samples_through (batches : list (list Sample)) (i : nat) : Z :=
  len (concat (take (S i) batches)).

(** Two states that differ at most in the files they hold. *)
Definition same_but_files (w1 w2 : World) : Prop :=
  params w1 = params w2 ∧ training w1 = training w2 ∧ grads w1 = grads w2 ∧
  opt_state w1 = opt_state w2 ∧ cur_lr w1 = cur_lr w2 ∧ last_epoch w1 = last_epoch w2 ∧
  rng w1 = rng w2.

(** Two runs that cannot be told apart: same outcome, same events, final
    states that differ at most in the files. *)
Definition same_run {A} (r1 r2 : Run A) : Prop :=
  outcome r1 = outcome r2 ∧ emitted r1 = emitted r2 ∧
  same_but_files (final r1) (final r2).

(** A computation whose run does not depend on the files present. *)
Definition files_blind {A} (m : M A) : Prop :=
  ∀ w1 w2, same_but_files w1 w2 → same_run (m w1) (m w2).

(** A training batch's trip through the model and the optimizer: the state
    after [optimizer.step()] and the batch's mean loss. *)
Definition after_step (batch : list Sample) (w : World) : World * Q :=
  let og := forward_train_batch (params w) (rng w) (image <$> batch) in
  let gr := grads_add grads_zero (grad_nll (params w) (rng w) batch) in
  let po := adadelta_step (cur_lr w) (params w) gr (opt_state w) in
  (with_model po.1 po.2 (with_grads gr (with_rng og.2 w)),
   nll_loss_mean og.1 (label <$> batch)).

(** The state an iteration over a loader leaves: the generator has moved by
    the iterator's draws. *)
Definition after_iter (ld : DataLoader) (w : World) : World :=
  with_rng (sample_order (ld_shuffle ld) (rng w) (dataset ld)).2 w.

(** The accumulators of [test] after the given batches, from the values
    [test_loss] and [correct]. *)
Definition eval_totals (p : Params) (batches : list (list Sample)) (test_loss : Q)
    (correct : Z) : Q * Z :=
  foldl (λ acc batch,
           let output := predict p <$> (image <$> batch) in
           ((acc.1 + nll_loss_sum output (label <$> batch))%Q,
            acc.2 + count_correct (argmax <$> output) (label <$> batch)))
        (test_loss, correct) batches.

(** The samples of [ds] that the model with parameters [p] classifies
    right: the class of greatest log-probability is the label. *)
Definition correct_count (p : Params) (ds : list Sample) : Z :=
  len (filter (λ s, argmax (predict p (image s)) = label s) ds).

(** The batch indices from [first] on, [count] of them, at which [train]
    logs. *)
Definition logged_indices (log_interval first : Z) (count : nat) : list Z :=
  filter (λ j, j `mod` log_interval = 0) (seqZ first (Z.of_nat count)).

(** The progress line [e] is the one [train] prints for batch [j] of the
    sequence [batches], whose first batch has index [first]. *)
Definition progress_line_of (ld : DataLoader) (k first : Z)
    (batches : list (list Sample)) (e : Event) (j : Z) : Prop :=
  first ≤ j ∧
  ∃ b loss, batches !! Z.to_nat (j - first) = Some b ∧
    e = Progress k (j * len b) (len (dataset ld))
          (100 * inject_Z j / inject_Z (loader_len ld))%Q loss.

(** The state after the training steps on [batches]. *)
Definition after_steps (batches : list (list Sample)) (w : World) : World :=
  foldl (λ w b, (after_step b w).1) w batches.

(** A run with more events in front. *)
Definition after_events {A} (evs : list Event) (r : Run A) : Run A :=
  {| outcome := outcome r; final := final r; emitted := evs ++ emitted r |}.

End Reading.

(** ** The inputs the examples run on *)
Module Examples.
Import Toy.

(** Ten training samples and three evaluation samples. *)
Definition env_cpu : Env :=
  {| cuda_available := false;
     train_raw := [raw 1 0; raw 2 1; raw 3 2; raw 4 3; raw 5 4;
                   raw 6 5; raw 7 6; raw 8 7; raw 9 8; raw 10 9];
     test_raw := [raw 1 0; raw 2 0; raw 3 2] |}.

Definition env_cuda : Env :=
  {| cuda_available := true; train_raw := train_raw env_cpu; test_raw := test_raw env_cpu |}.

(** Batches of four for training and of two for evaluation, two epochs,
    every batch logged. *)
Definition args_small : Args :=
  {| batch_size := 4; test_batch_size := 2; epochs := 2; lr := 1; gamma := 7 # 10;
     no_cuda := false; dry_run := false; seed := 1; log_interval := 1;
     save_model := true |}.

Definition args_dry : Args :=
  {| batch_size := 4; test_batch_size := 2; epochs := 2; lr := 1; gamma := 7 # 10;
     no_cuda := false; dry_run := true; seed := 1; log_interval := 10;
     save_model := true |}.

Definition args_no_epochs : Args :=
  {| batch_size := 4; test_batch_size := 2; epochs := 0; lr := 1; gamma := 7 # 10;
     no_cuda := false; dry_run := false; seed := 1; log_interval := 1;
     save_model := true |}.

Definition args_log0 : Args :=
  {| batch_size := 4; test_batch_size := 2; epochs := 2; lr := 1; gamma := 7 # 10;
     no_cuda := false; dry_run := false; seed := 1; log_interval := 0;
     save_model := true |}.

Definition loader (bs : positive) (sh : bool) (raw : list (list Z * Label)) : DataLoader :=
  {| dataset := load_split raw; ld_batch_size := bs; ld_shuffle := sh |}.

Definition train_ld : DataLoader := loader 4 false (train_raw env_cpu).
Definition test_ld : DataLoader := loader 2 false (test_raw env_cpu).
Definition empty_ld : DataLoader := loader 4 false [].

Definition sched : StepLR := {| step_size := 1; sched_gamma := 7 # 10 |}.

(** A state as [main] has it on entering the epoch loop. *)
Definition ready : World :=
  {| params := 0%Q; training := true; grads := 0%Q; opt_state := O; cur_lr := 1%Q;
     last_epoch := 0; rng := 2%Z; files := ∅ |}.

(** As [args_small] with the log intervals -2 and 2, and with [--no-cuda]. *)
Definition args_neg : Args :=
  {| batch_size := 4; test_batch_size := 2; epochs := 2; lr := 1; gamma := 7 # 10;
     no_cuda := false; dry_run := false; seed := 1; log_interval := -2;
     save_model := true |}.

Definition args_pos : Args :=
  {| batch_size := 4; test_batch_size := 2; epochs := 2; lr := 1; gamma := 7 # 10;
     no_cuda := false; dry_run := false; seed := 1; log_interval := 2;
     save_model := true |}.

Definition args_no_cuda : Args :=
  {| batch_size := 4; test_batch_size := 2; epochs := 2; lr := 1; gamma := 7 # 10;
     no_cuda := true; dry_run := false; seed := 1; log_interval := 1;
     save_model := true |}.
End Examples.

(** * Properties *)

(** Reading the projections of a list of events built with [::] and [++]. *)
Ltac read_events :=
  unfold shape, schedule_steps, saves in *;
  repeat (rewrite omap_app || cbn [omap list_omap phase_of app]).

(** ** Arithmetic, batching and sums *)

Lemma ceil_div_step (m n : Z) :
  (0 < n)%Z → (0 < m)%Z →
  ((m + n - 1) / n = 1 + (Z.max 0 (m - n) + n - 1) / n)%Z.
Proof.
  intros Hn Hm. destruct (Z.max_spec 0 (m - n)) as [[? ->]|[? ->]].
  - replace (m + n - 1)%Z with ((m - n + n - 1) + 1 * n)%Z by lia.
    rewrite Z.div_add by lia. lia.
  - rewrite (Z.div_small (0 + n - 1)) by lia.
    replace (m + n - 1)%Z with ((m - 1) + 1 * n)%Z by lia.
    rewrite Z.div_add by lia. rewrite Z.div_small by lia. lia.
Qed.

Section ChunkFacts.
Context {A : Type}.
Implicit Types (l : list A) (n fuel : nat).

Lemma chunks_fuel_concat fuel n l :
  (0 < n)%nat → (length l ≤ fuel)%nat → concat (chunks_fuel fuel n l) = l.
Proof.
  intros Hn. revert l. induction fuel as [|fuel IH]; intros l Hl.
  - destruct l; [done | simpl in Hl; lia].
  - destruct l as [|x l]; [done|].
    cbn [chunks_fuel concat]. rewrite IH.
    + apply take_drop.
    + rewrite length_drop. simpl in *. lia.
Qed.

Lemma chunks_concat (n : positive) l : concat (chunks n l) = l.
Proof. apply chunks_fuel_concat; lia. Qed.

Lemma chunks_fuel_length fuel n l :
  (0 < n)%nat → (length l ≤ fuel)%nat →
  Z.of_nat (length (chunks_fuel fuel n l)) =
    ((Z.of_nat (length l) + Z.of_nat n - 1) / Z.of_nat n)%Z.
Proof.
  intros Hn. revert l. induction fuel as [|fuel IH]; intros l Hl.
  - destruct l; [|simpl in Hl; lia]. simpl.
    symmetry. apply Z.div_small. lia.
  - destruct l as [|x l].
    + simpl. symmetry. apply Z.div_small. lia.
    + cbn [chunks_fuel]. rewrite length_cons, Nat2Z.inj_succ, IH.
      2:{ rewrite length_drop. simpl in *. lia. }
      rewrite length_drop, Nat2Z.inj_sub_max.
      rewrite (ceil_div_step (Z.of_nat (length (x :: l)))); [lia | lia |].
      simpl. lia.
Qed.

Lemma chunks_length (n : positive) l :
  Z.of_nat (length (chunks n l)) = ((Z.of_nat (length l) + Z.pos n - 1) / Z.pos n)%Z.
Proof.
  unfold chunks. rewrite chunks_fuel_length by lia. by rewrite positive_nat_Z.
Qed.

Lemma chunks_fuel_sizes fuel n l :
  (0 < n)%nat → Forall (λ c, (1 ≤ length c ≤ n)%nat) (chunks_fuel fuel n l).
Proof.
  intros Hn. revert l. induction fuel as [|fuel IH]; intros l; [constructor|].
  destruct l as [|x l]; [constructor|].
  cbn [chunks_fuel]. constructor; [|apply IH].
  rewrite length_take. simpl. lia.
Qed.

Lemma chunks_sizes (n : positive) l :
  Forall (λ c, (1 ≤ length c ≤ Pos.to_nat n)%nat) (chunks n l).
Proof. apply chunks_fuel_sizes. lia. Qed.
End ChunkFacts.

Section SumFacts.
Lemma Qsum_app l1 l2 : (Qsum (l1 ++ l2) == Qsum l1 + Qsum l2)%Q.
Proof.
  induction l1 as [|x l1 IH]; simpl.
  - ring.
  - rewrite IH. ring.
Qed.

Lemma Qsum_perm l1 l2 : l1 ≡ₚ l2 → (Qsum l1 == Qsum l2)%Q.
Proof.
  induction 1 as [|x l1 l2 _ IH|x y l|l1 l2 l3 _ IH1 _ IH2]; simpl.
  - reflexivity.
  - by rewrite IH.
  - ring.
  - by rewrite IH1.
Qed.

Lemma Qsum_nonneg l : Forall (λ x, (0 <= x)%Q) l → (0 <= Qsum l)%Q.
Proof.
  induction 1 as [|x l Hx _ IH]; simpl.
  - apply Qle_refl.
  - lra.
Qed.
End SumFacts.

(** ** Running a computation step by step *)

Section RunFacts.
Context `{T : Torch}.
Local Open Scope Z_scope.

Lemma bind_ok {A B} (m : M A) (k : A → M B) w a w' evs :
  m w = {| outcome := Ok a; final := w'; emitted := evs |} →
  (m ≫= k) w = after_events evs (k a w').
Proof. intros Hm. unfold mbind, M_bind, bind. rewrite Hm. reflexivity. Qed.

Lemma bind_raise {A B} (m : M A) (k : A → M B) w e w' evs :
  m w = {| outcome := Raise e; final := w'; emitted := evs |} →
  (m ≫= k) w = {| outcome := Raise e; final := w'; emitted := evs |}.
Proof. intros Hm. unfold mbind, M_bind, bind. rewrite Hm. reflexivity. Qed.

Lemma after_events_nil {A} (r : Run A) : after_events [] r = r.
Proof. by destruct r. Qed.

Lemma after_events_app {A} evs1 evs2 (r : Run A) :
  after_events evs1 (after_events evs2 r) = after_events (evs1 ++ evs2) r.
Proof. unfold after_events. cbn. by rewrite app_assoc. Qed.

Lemma get_run w : get w = {| outcome := Ok w; final := w; emitted := [] |}.
Proof. reflexivity. Qed.

Lemma put_run w' w : put w' w = {| outcome := Ok tt; final := w'; emitted := [] |}.
Proof. reflexivity. Qed.

Lemma emit_run e w : emit e w = {| outcome := Ok tt; final := w; emitted := [e] |}.
Proof. reflexivity. Qed.

Lemma ret_run {A} (a : A) w : ret a w = {| outcome := Ok a; final := w; emitted := [] |}.
Proof. reflexivity. Qed.

Lemma model_train_run w :
  model_train w = {| outcome := Ok tt; final := with_training true w; emitted := [] |}.
Proof. reflexivity. Qed.

Lemma model_eval_run w :
  model_eval w = {| outcome := Ok tt; final := with_training false w; emitted := [] |}.
Proof. reflexivity. Qed.

Lemma set_rng_run g w :
  set_rng g w = {| outcome := Ok tt; final := with_rng g w; emitted := [] |}.
Proof. reflexivity. Qed.

Lemma zero_grad_run w :
  zero_grad w = {| outcome := Ok tt; final := with_grads grads_zero w; emitted := [] |}.
Proof. reflexivity. Qed.

Lemma backward_run g0 b w :
  backward g0 b w =
    {| outcome := Ok tt; final := with_grads (grads_add (grads w) (grad_nll (params w) g0 b)) w;
       emitted := [] |}.
Proof. reflexivity. Qed.

Lemma optimizer_step_run k i b w :
  optimizer_step k i b w =
    {| outcome := Ok tt;
       final := with_model (adadelta_step (cur_lr w) (params w) (grads w) (opt_state w)).1
                  (adadelta_step (cur_lr w) (params w) (grads w) (opt_state w)).2 w;
       emitted := [OptimizerStep k i b (cur_lr w)] |}.
Proof. reflexivity. Qed.

Lemma scheduler_step_run s w :
  scheduler_step s w =
    {| outcome := Ok tt; final := with_schedule (next_lr s w) (last_epoch w + 1) w;
       emitted := [ScheduleStep (cur_lr w) (next_lr s w)] |}.
Proof. reflexivity. Qed.

Lemma torch_save_run file w :
  torch_save file w =
    {| outcome := Ok tt; final := with_files (<[file := params w]> (files w)) w;
       emitted := [Saved file (params w)] |}.
Proof. reflexivity. Qed.

Lemma model_call_train_run data w :
  training w = true →
  model_call data w =
    {| outcome := Ok (forward_train_batch (params w) (rng w) data).1;
       final := with_rng (forward_train_batch (params w) (rng w) data).2 w;
       emitted := [] |}.
Proof. intros Hw. unfold model_call. erewrite bind_ok by apply get_run. rewrite Hw. reflexivity. Qed.

Lemma model_call_eval_run data w :
  training w = false →
  model_call data w =
    {| outcome := Ok (predict (params w) <$> data); final := w; emitted := [] |}.
Proof. intros Hw. unfold model_call. erewrite bind_ok by apply get_run. rewrite Hw. reflexivity. Qed.

Lemma py_mod_run a b w :
  py_mod a b w =
    if decide (b = 0) then {| outcome := Raise ZeroDivisionError; final := w; emitted := [] |}
    else {| outcome := Ok (a `mod` b); final := w; emitted := [] |}.
Proof. unfold py_mod. by destruct (decide (b = 0)). Qed.

Lemma py_truediv_run a b w :
  py_truediv a b w =
    if Qeq_bool b 0 then {| outcome := Raise ZeroDivisionError; final := w; emitted := [] |}
    else {| outcome := Ok (a / b)%Q; final := w; emitted := [] |}.
Proof. unfold py_truediv. by destruct (Qeq_bool b 0). Qed.

Lemma iter_loader_run ld w :
  iter_loader ld w =
    {| outcome := Ok (loader_batches ld (rng w)); final := after_iter ld w; emitted := [] |}.
Proof.
  reflexivity.
Qed.
End RunFacts.

(** ** The passes as equations *)

Section PassFacts.
Context `{T : Torch}.
Local Open Scope Z_scope.

Lemma bind_py_mod {B} a b (k : Z → M B) w :
  (py_mod a b ≫= k) w =
    if decide (b = 0) then {| outcome := Raise ZeroDivisionError; final := w; emitted := [] |}
    else k (a `mod` b) w.
Proof.
  destruct (decide (b = 0)) as [Hb|Hb].
  - erewrite bind_raise; [done|]. rewrite py_mod_run. by destruct (decide (b = 0)).
  - erewrite bind_ok; [apply after_events_nil|]. rewrite py_mod_run.
    by destruct (decide (b = 0)).
Qed.

Lemma bind_py_truediv {B} a b (k : Q → M B) w :
  (py_truediv a b ≫= k) w =
    if Qeq_bool b 0 then {| outcome := Raise ZeroDivisionError; final := w; emitted := [] |}
    else k (a / b)%Q w.
Proof.
  destruct (Qeq_bool b 0) eqn:Hb.
  - erewrite bind_raise; [done|]. rewrite py_truediv_run. by rewrite Hb.
  - erewrite bind_ok; [apply after_events_nil|]. rewrite py_truediv_run. by rewrite Hb.
Qed.

Lemma train_loop_cons args ld k i b rest w :
  training w = true →
  train_loop args ld k i (b :: rest) w =
    let w' := (after_step b w).1 in
    let loss := (after_step b w).2 in
    let step := OptimizerStep k i b (cur_lr w) in
    if decide (log_interval args = 0) then
      {| outcome := Raise ZeroDivisionError; final := w'; emitted := [step] |}
    else if decide (i `mod` log_interval args = 0) then
      if Qeq_bool (inject_Z (loader_len ld)) 0 then
        {| outcome := Raise ZeroDivisionError; final := w'; emitted := [step] |}
      else
        let line := Progress k (i * len (image <$> b)) (len (dataset ld))
                      (100 * inject_Z i / inject_Z (loader_len ld))%Q loss in
        if dry_run args then {| outcome := Ok tt; final := w'; emitted := [step; line] |}
        else after_events [step; line] (train_loop args ld k (i + 1) rest w')
    else after_events [step] (train_loop args ld k (i + 1) rest w').
Proof.
  intros Htr. cbn [train_loop].
  erewrite bind_ok by apply zero_grad_run.
  erewrite bind_ok by apply get_run.
  erewrite bind_ok by (by apply model_call_train_run).
  erewrite bind_ok by apply backward_run.
  erewrite bind_ok by apply optimizer_step_run.
  rewrite !after_events_app. cbn [app].
  cbn [params training grads opt_state cur_lr last_epoch rng files
       with_grads with_rng with_model].
  change (with_model _ _ _) with (after_step b w).1.
  change (nll_loss_mean _ _) with (after_step b w).2.
  cbv zeta. generalize (after_step b w). intros [w' loss]. cbn [fst snd].
  rewrite bind_py_mod.
  destruct (decide (log_interval args = 0)); [done|].
  destruct (decide (i `mod` log_interval args = 0)); [|done].
  rewrite bind_py_truediv.
  destruct (Qeq_bool (inject_Z (loader_len ld)) 0); [done|].
  erewrite bind_ok by apply emit_run.
  rewrite after_events_app. cbn [app].
  destruct (dry_run args); [|done].
  reflexivity.
Qed.

Lemma train_run args ld k w :
  train args ld k w =
    after_events [TrainPass k]
      (train_loop args ld k 0 (loader_batches ld (rng w))
         (after_iter ld (with_training true w))).
Proof.
  unfold train.
  erewrite bind_ok by apply model_train_run.
  erewrite bind_ok by apply emit_run.
  erewrite bind_ok by apply iter_loader_run.
  rewrite !after_events_app. reflexivity.
Qed.

Lemma test_loop_run batches l c w :
  training w = false →
  test_loop batches l c w =
    {| outcome := Ok (eval_totals (params w) batches l c); final := w;
       emitted := EvalBatch <$> batches |}.
Proof.
  intros Hw. revert l c. induction batches as [|b batches IH]; intros l c; [done|].
  cbn [test_loop].
  erewrite bind_ok by apply emit_run.
  erewrite bind_ok by (by apply model_call_eval_run).
  rewrite IH. reflexivity.
Qed.

(** The loop over a sequence of batches is the loop over a first part
    followed by the loop over the rest from the accumulators reached. *)
Lemma test_loop_app pre post l c w :
  training w = false →
  test_loop (pre ++ post) l c w =
    (test_loop pre l c ≫= λ acc, test_loop post acc.1 acc.2) w.
Proof.
  intros Hw. erewrite bind_ok by (by apply test_loop_run).
  rewrite !test_loop_run by done. unfold after_events, eval_totals.
  cbn [outcome final emitted]. rewrite foldl_app, fmap_app.
  by destruct (foldl _ (l, c) pre).
Qed.

Lemma after_iter_frame ld w :
  let w' := after_iter ld w in
  params w' = params w ∧ training w' = training w ∧ grads w' = grads w ∧
  opt_state w' = opt_state w ∧ cur_lr w' = cur_lr w ∧ last_epoch w' = last_epoch w ∧
  files w' = files w ∧
  rng w' = (sample_order (ld_shuffle ld) (rng w) (dataset ld)).2.
Proof. done. Qed.

Lemma test_run ld w :
  test ld w =
    let w' := after_iter ld (with_training false w) in
    let batches := loader_batches ld (rng w) in
    let tot := eval_totals (params w) batches 0 0 in
    let n := inject_Z (len (dataset ld)) in
    if Qeq_bool n 0 then
      {| outcome := Raise ZeroDivisionError; final := w';
         emitted := EvalPass :: (EvalBatch <$> batches) |}
    else
      {| outcome := Ok tt; final := w';
         emitted := EvalPass :: (EvalBatch <$> batches) ++
                    [Summary (tot.1 / n) tot.2 (len (dataset ld)) (100 * inject_Z tot.2 / n)] |}.
Proof.
  unfold test.
  erewrite bind_ok by apply model_eval_run.
  erewrite bind_ok by apply emit_run.
  erewrite bind_ok by apply iter_loader_run.
  destruct (after_iter_frame ld (with_training false w)) as (Hp & Htr & _).
  erewrite bind_ok by (by apply test_loop_run).
  rewrite !after_events_app. cbn [app]. rewrite Hp.
  change (rng (with_training false w)) with (rng w).
  change (params (with_training false w)) with (params w).
  cbv zeta.
  destruct (eval_totals (params w) (loader_batches ld (rng w)) 0 0) as [cum c].
  cbn [fst snd].
  rewrite bind_py_truediv.
  destruct (Qeq_bool (inject_Z (len (dataset ld))) 0) eqn:Hn.
  { unfold after_events. cbn [outcome final emitted]. by rewrite app_nil_r. }
  rewrite bind_py_truediv, Hn, emit_run. unfold after_events. cbn [outcome final emitted]. reflexivity.
Qed.

Lemma after_step_frame b w :
  let w' := (after_step b w).1 in
  training w' = training w ∧ cur_lr w' = cur_lr w ∧ last_epoch w' = last_epoch w ∧
  files w' = files w.
Proof. done. Qed.
End PassFacts.

(** ** The events of a pass *)

Section PassEvents.
Context `{T : Torch}.
Local Open Scope Z_scope.

Lemma train_event_silent k l evs :
  Forall (train_event k l) evs →
  shape evs = [] ∧ schedule_steps evs = [] ∧ saves evs = [] ∧ eval_batches evs = [].
Proof.
  induction 1 as [|e evs He _ IH]; [done|].
  destruct e; try done; cbn; exact IH.
Qed.

Lemma eval_event_silent evs :
  Forall eval_event evs →
  shape evs = [] ∧ schedule_steps evs = [] ∧ saves evs = [] ∧ train_batches evs = [].
Proof.
  induction 1 as [|e evs He _ IH]; [done|].
  destruct e; try done; cbn; exact IH.
Qed.

Lemma train_loop_events args ld k i batches w :
  training w = true →
  let r := train_loop args ld k i batches w in
  Forall (train_event k (cur_lr w)) (emitted r) ∧
  cur_lr (final r) = cur_lr w ∧ last_epoch (final r) = last_epoch w ∧
  files (final r) = files w.
Proof.
  revert i w. induction batches as [|b rest IH]; intros i w Hw.
  { cbn. repeat split; done. }
  cbv zeta. rewrite train_loop_cons by done. cbv zeta.
  destruct (after_step_frame b w) as (Htr & Hlr & Hle & Hf).
  rewrite Hw in Htr.
  specialize (IH (i + 1) _ Htr). cbv zeta in IH.
  rewrite Hlr, Hle, Hf in IH. destruct IH as (IHev & IHlr & IHle & IHf).
  repeat case_match; cbn [outcome final emitted after_events app];
    repeat split; try done; repeat (constructor; [done|]); done.
Qed.

Lemma train_events args ld k w :
  let r := train args ld k w in
  ∃ evs, emitted r = TrainPass k :: evs ∧ Forall (train_event k (cur_lr w)) evs ∧
  cur_lr (final r) = cur_lr w ∧ last_epoch (final r) = last_epoch w ∧
  files (final r) = files w.
Proof.
  cbv zeta. rewrite train_run.
  destruct (after_iter_frame ld (with_training true w)) as (_ & Htr & _ & _ & Hlr & Hle & Hf & _).
  destruct (train_loop_events args ld k 0 (loader_batches ld (rng w))
              (after_iter ld (with_training true w)) Htr) as (Hev & ? & ? & ?).
  change (cur_lr (with_training true w)) with (cur_lr w) in Hlr.
  change (last_epoch (with_training true w)) with (last_epoch w) in Hle.
  change (files (with_training true w)) with (files w) in Hf.
  eexists. split; [reflexivity|]. cbn [final after_events].
  rewrite <- Hlr at 1. repeat split; try done; congruence.
Qed.

Lemma test_events ld w :
  let r := test ld w in
  ∃ evs, emitted r = EvalPass :: evs ∧ Forall eval_event evs ∧
  params (final r) = params w ∧ grads (final r) = grads w ∧
  opt_state (final r) = opt_state w ∧
  cur_lr (final r) = cur_lr w ∧ last_epoch (final r) = last_epoch w ∧
  files (final r) = files w ∧ training (final r) = false.
Proof.
  cbv zeta. rewrite test_run. cbv zeta.
  destruct (after_iter_frame ld (with_training false w)) as (? & ? & ? & ? & ? & ? & ? & _).
  assert (Forall eval_event (EvalBatch <$> loader_batches ld (rng w))) as Hb.
  { apply Forall_fmap, Forall_true. done. }
  destruct (Qeq_bool _ _); cbn [outcome final emitted]; eexists; (split; [reflexivity|]);
    repeat split; try done.
  apply Forall_app. split; [done|]. by repeat constructor.
Qed.
End PassEvents.

(** ** One epoch *)

Section EpochFacts.
Context `{T : Torch}.
Local Open Scope Z_scope.

Lemma run_eta {A} (r : Run A) :
  r = {| outcome := outcome r; final := final r; emitted := emitted r |}.
Proof. by destruct r. Qed.

(** An epoch stops in its training pass, stops in its evaluation pass, or
    goes through both and the schedule step. *)
Lemma epoch_body_cases args tl tel s k w :
  let r := epoch_body args tl tel s k w in
  files (final r) = files w ∧
  ∃ evs_tr, Forall (train_event k (cur_lr w)) evs_tr ∧
    ((∃ e, outcome r = Raise e ∧ emitted r = TrainPass k :: evs_tr) ∨
     (∃ e evs_ev, outcome r = Raise e ∧ Forall eval_event evs_ev ∧
        emitted r = TrainPass k :: evs_tr ++ EvalPass :: evs_ev) ∨
     (∃ evs_ev, outcome r = Ok tt ∧ Forall eval_event evs_ev ∧
        emitted r = TrainPass k :: evs_tr ++ EvalPass :: evs_ev ++
                    [ScheduleStep (cur_lr w) (next_lr s w)] ∧
        cur_lr (final r) = next_lr s w ∧ last_epoch (final r) = last_epoch w + 1)).
Proof.
  cbv zeta. unfold epoch_body.
  destruct (train_events args tl k w) as (evs_tr & Hev & Htr & Hlr1 & Hle1 & Hf1).
  destruct (outcome (train args tl k w)) as [[]|e] eqn:Ho1.
  2:{ erewrite bind_raise by (rewrite (run_eta (train _ _ _ _)), Ho1; reflexivity).
      cbn [outcome final emitted]. split; [done|]. exists evs_tr. split; [done|].
      left. eauto. }
  erewrite bind_ok by (rewrite (run_eta (train _ _ _ _)), Ho1; reflexivity).
  set (w1 := final (train args tl k w)) in *. clearbody w1.
  destruct (test_events tel w1) as (evs_ev & Hev2 & Hte & _ & _ & _ & Hlr2 & Hle2 & Hf2 & _).
  destruct (outcome (test tel w1)) as [[]|e] eqn:Ho2.
  2:{ erewrite bind_raise by (rewrite (run_eta (test _ _)), Ho2; reflexivity).
      cbn [outcome final emitted after_events]. split; [by rewrite Hf2|].
      exists evs_tr. split; [done|]. right; left. exists e, evs_ev.
      rewrite Hev, Hev2. done. }
  erewrite bind_ok by (rewrite (run_eta (test _ _)), Ho2; reflexivity).
  set (w2 := final (test tel w1)) in *. clearbody w2.
  rewrite scheduler_step_run. cbn [outcome final emitted after_events].
  cbn [files cur_lr last_epoch with_schedule].
  assert (next_lr s w2 = next_lr s w) as Hn.
  { unfold next_lr. by rewrite Hlr2, Hlr1, Hle2, Hle1. }
  split; [by rewrite Hf2|]. exists evs_tr. split; [done|]. right; right. exists evs_ev.
  rewrite Hev, Hev2, Hn, Hlr2, Hlr1, Hle2, Hle1. cbn [app].
  repeat split; done.
Qed.
End EpochFacts.

(** ** The epoch loop *)

Section LoopFacts.
Context `{T : Torch}.
Local Open Scope Z_scope.

Lemma seqZ_succ k (n : nat) : seqZ k (Z.of_nat (S n)) = k :: seqZ (k + 1) (Z.of_nat n).
Proof. rewrite seqZ_cons by lia. f_equal. f_equal; lia. Qed.

Lemma epochs_shape_succ k (n : nat) :
  epochs_shape k (Z.of_nat (S n)) = epoch_shape k ++ epochs_shape (k + 1) (Z.of_nat n).
Proof. unfold epochs_shape. by rewrite seqZ_succ. Qed.

Lemma epochs_run_shape args tl tel s (n : nat) k w :
  let r := for_each (seqZ k (Z.of_nat n)) (epoch_body args tl tel s) w in
  files (final r) = files w ∧ saves (emitted r) = [] ∧
  shape (emitted r) `prefix_of` epochs_shape k (Z.of_nat n) ∧
  (outcome r = Ok tt →
     shape (emitted r) = epochs_shape k (Z.of_nat n) ∧
     length (schedule_steps (emitted r)) = n) ∧
  (∀ e, outcome r = Raise e → (length (schedule_steps (emitted r)) < n)%nat).
Proof.
  revert k w. induction n as [|n IH]; intros k w.
  { cbn. repeat split; try done. }
  cbv zeta. rewrite seqZ_succ, epochs_shape_succ. cbn [for_each].
  destruct (epoch_body_cases args tl tel s k w) as (Hf & evs_tr & Htr & Hcases).
  pose proof (train_event_silent _ _ _ Htr) as (Hs1 & Hs2 & Hs3 & _).
  destruct Hcases as [(e & Ho & Hev)|[(e & evs_ev & Ho & Hte & Hev)|
                      (evs_ev & Ho & Hte & Hev & _)]].
  - erewrite bind_raise by (rewrite (run_eta (epoch_body _ _ _ _ _ _)), Ho; reflexivity).
    cbn [outcome final emitted]. rewrite Hev. read_events. rewrite Hs1, Hs2, Hs3.
    repeat split; try done.
    + by apply prefix_cons, prefix_nil.
    + intros ? _. cbn. lia.
  - pose proof (eval_event_silent _ Hte) as (He1 & He2 & He3 & _).
    erewrite bind_raise by (rewrite (run_eta (epoch_body _ _ _ _ _ _)), Ho; reflexivity).
    cbn [outcome final emitted]. rewrite Hev. read_events.
    rewrite Hs1, Hs2, Hs3, He1, He2, He3.
    repeat split; try done.
    + by apply prefix_cons, prefix_cons, prefix_nil.
    + intros ? _. cbn. lia.
  - pose proof (eval_event_silent _ Hte) as (He1 & He2 & He3 & _).
    erewrite bind_ok by (rewrite (run_eta (epoch_body _ _ _ _ _ _)), Ho; reflexivity).
    cbn [outcome final emitted after_events]. rewrite Hev.
    destruct (IH (k + 1) (final (epoch_body args tl tel s k w)))
      as (IHf & IHs & IHp & IHok & IHerr).
    read_events. rewrite Hs1, Hs2, Hs3, He1, He2, He3. cbn [app length].
    split; [by rewrite IHf|]. split; [done|].
    split; [by do 3 apply prefix_cons|].
    split.
    + intros Hok. destruct (IHok Hok) as [-> ->]. done.
    + intros e He. specialize (IHerr e He). lia.
Qed.
End LoopFacts.

(** ** The learning rate along the epochs *)

Section LrFacts.
Context `{T : Torch}.
Local Open Scope Z_scope.

Lemma lr_of_epoch_succ args k :
  1 ≤ k → lr_of_epoch args (k + 1) = (lr_of_epoch args k * gamma args)%Q.
Proof.
  intros Hk. unfold lr_of_epoch.
  replace (Z.to_nat (k + 1 - 1)) with (S (Z.to_nat (k - 1))) by lia.
  reflexivity.
Qed.

Lemma lr_of_epoch_closed args k :
  1 ≤ k → (lr_of_epoch args k == lr args * gamma args ^ (k - 1))%Q.
Proof.
  intros Hk. unfold lr_of_epoch.
  rewrite <- (Z2Nat.id (k - 1)) at 2 by lia.
  generalize (Z.to_nat (k - 1)) as n. intros n. induction n as [|n IH].
  - change (Z.of_nat 0) with 0. rewrite Qpower_0_r. unfold Nat.iter. cbn [nat_rect]. ring.
  - rewrite Nat2Z.inj_succ. unfold Z.succ. rewrite Qpower_plus' by lia.
    rewrite Qpower_1_r. unfold Nat.iter in *. cbn [nat_rect]. rewrite IH. ring.
Qed.

Lemma next_lr_step args w :
  0 ≤ last_epoch w → next_lr (scheduler_of args) w = (cur_lr w * gamma args)%Q.
Proof.
  intros Hle. unfold next_lr, scheduler_of. cbn [step_size sched_gamma].
  change (Z.pos 1) with 1.
  rewrite Z.mod_1_r. case_decide as H; [|done]. lia.
Qed.

Lemma step_of_epochs_weaken args k n e :
  0 ≤ n → step_of_epochs args (k + 1) n e → step_of_epochs args k (n + 1) e.
Proof. intros Hn. destruct e; try done. cbn. intros [? ->]. split; [lia|done]. Qed.

Lemma train_event_step args k n e :
  0 < n → train_event k (lr_of_epoch args k) e → step_of_epochs args k n e.
Proof. intros Hn. destruct e; try done. cbn. intros [-> ->]. split; [lia|done]. Qed.

Lemma eval_event_step args k n e : eval_event e → step_of_epochs args k n e.
Proof. by destruct e. Qed.

Lemma epochs_run_lr args tl tel (n : nat) k w :
  1 ≤ k → cur_lr w = lr_of_epoch args k → last_epoch w = k - 1 →
  let r := for_each (seqZ k (Z.of_nat n)) (epoch_body args tl tel (scheduler_of args)) w in
  Forall (step_of_epochs args k (Z.of_nat n)) (emitted r) ∧
  schedule_steps (emitted r) `prefix_of` (schedule_of_epoch args <$> seqZ k (Z.of_nat n)) ∧
  (outcome r = Ok tt →
     schedule_steps (emitted r) = schedule_of_epoch args <$> seqZ k (Z.of_nat n)).
Proof.
  revert k w. induction n as [|n IH]; intros k w Hk Hlr Hle.
  { cbn. repeat split; try done. }
  cbv zeta. rewrite seqZ_succ. cbn [for_each fmap list_fmap].
  destruct (epoch_body_cases args tl tel (scheduler_of args) k w)
    as (Hf & evs_tr & Htr & Hcases).
  rewrite Hlr in Htr.
  pose proof (train_event_silent _ _ _ Htr) as (_ & Hs2 & _).
  assert (Forall (step_of_epochs args k (Z.of_nat (S n))) evs_tr) as Htr'.
  { eapply Forall_impl; [exact Htr|]. intros e. apply train_event_step. lia. }
  destruct Hcases as [(e & Ho & Hev)|[(e & evs_ev & Ho & Hte & Hev)|
                      (evs_ev & Ho & Hte & Hev & Hlr' & Hle')]].
  - erewrite bind_raise by (rewrite (run_eta (epoch_body _ _ _ _ _ _)), Ho; reflexivity).
    cbn [outcome final emitted]. rewrite Hev. read_events. rewrite Hs2.
    repeat split; try done.
    + by constructor.
    + apply prefix_nil.
  - pose proof (eval_event_silent _ Hte) as (_ & He2 & _).
    assert (Forall (step_of_epochs args k (Z.of_nat (S n))) evs_ev) as Hte'.
    { eapply Forall_impl; [exact Hte|]. intros ?. apply eval_event_step. }
    erewrite bind_raise by (rewrite (run_eta (epoch_body _ _ _ _ _ _)), Ho; reflexivity).
    cbn [outcome final emitted]. rewrite Hev. read_events. rewrite Hs2, He2.
    repeat split; try done.
    + repeat (rewrite Forall_cons || rewrite Forall_app). repeat split; (done || exact I).
    + apply prefix_nil.
  - pose proof (eval_event_silent _ Hte) as (_ & He2 & _).
    assert (Forall (step_of_epochs args k (Z.of_nat (S n))) evs_ev) as Hte'.
    { eapply Forall_impl; [exact Hte|]. intros ?. apply eval_event_step. }
    erewrite bind_ok by (rewrite (run_eta (epoch_body _ _ _ _ _ _)), Ho; reflexivity).
    cbn [outcome final emitted after_events]. rewrite Hev.
    rewrite next_lr_step in Hlr' |- * by lia.
    rewrite Hlr, <- lr_of_epoch_succ in Hlr' |- * by lia.
    destruct (IH (k + 1) (final (epoch_body args tl tel (scheduler_of args) k w)))
      as (IHev & IHp & IHok); [lia|done|lia|].
    assert (Forall (step_of_epochs args k (Z.of_nat (S n)))
              (emitted (for_each (seqZ (k + 1) (Z.of_nat n))
                          (epoch_body args tl tel (scheduler_of args))
                          (final (epoch_body args tl tel (scheduler_of args) k w))))) as IHev'.
    { eapply Forall_impl; [exact IHev|]. intros e He.
      replace (Z.of_nat (S n)) with (Z.of_nat n + 1) by lia.
      apply step_of_epochs_weaken; [lia|done]. }
    read_events. rewrite Hs2, He2. cbn [app].
    split; [|split].
    + repeat (rewrite Forall_cons || rewrite Forall_app). repeat split; (done || exact I).
    + by apply prefix_cons.
    + intros Hok. by rewrite (IHok Hok).
Qed.
End LrFacts.

(** ** The accumulators of the evaluation pass *)

Section TotalsFacts.
Context `{T : Torch}.
Local Open Scope Z_scope.

Lemma nll_loss_sum_samples p (b : list Sample) :
  nll_loss_sum (predict p <$> (image <$> b)) (label <$> b) = Qsum (sample_nll p <$> b).
Proof.
  unfold nll_loss_sum, nll_each. induction b as [|s b IH]; [done|].
  cbn [fmap list_fmap zip_with Qsum foldr]. unfold Qsum in IH. by rewrite IH.
Qed.

Lemma count_correct_bound pred target :
  0 ≤ count_correct pred target ≤ len target.
Proof.
  unfold count_correct, len. split; [lia|].
  apply inj_le. etrans; [apply length_filter|].
  rewrite length_zip_with. lia.
Qed.

Lemma eval_totals_cons p b batches l c :
  eval_totals p (b :: batches) l c =
    eval_totals p batches
      (l + nll_loss_sum (predict p <$> (image <$> b)) (label <$> b))%Q
      (c + count_correct (argmax <$> (predict p <$> (image <$> b))) (label <$> b)).
Proof. reflexivity. Qed.

Lemma eval_totals_loss p batches l c :
  ((eval_totals p batches l c).1 == l + Qsum (sample_nll p <$> concat batches))%Q.
Proof.
  revert l c. induction batches as [|b batches IH]; intros l c.
  - cbn. ring.
  - rewrite eval_totals_cons, IH, nll_loss_sum_samples.
    cbn [concat]. rewrite fmap_app, Qsum_app. ring.
Qed.

Lemma eval_totals_correct p batches l c :
  c ≤ (eval_totals p batches l c).2 ≤ c + len (concat batches).
Proof.
  revert l c. induction batches as [|b batches IH]; intros l c.
  - cbn. unfold len. cbn. lia.
  - rewrite eval_totals_cons. cbn [concat]. unfold len in *. rewrite length_app.
    specialize (IH (l + nll_loss_sum (predict p <$> (image <$> b)) (label <$> b))%Q
      (c + count_correct (argmax <$> (predict p <$> (image <$> b))) (label <$> b))).
    pose proof (count_correct_bound (argmax <$> (predict p <$> (image <$> b))) (label <$> b))
      as Hb.
    unfold len in Hb. rewrite length_fmap in Hb. lia.
Qed.

Lemma loader_batches_perm ld g : concat (loader_batches ld g) ≡ₚ dataset ld.
Proof.
  unfold loader_batches. rewrite chunks_concat.
  apply sample_order_perm.
Qed.

Lemma loader_batches_ordered ld g :
  ld_shuffle ld = false → concat (loader_batches ld g) = dataset ld.
Proof.
  intros Hs. unfold loader_batches. by rewrite chunks_concat, Hs, sample_order_sequential.
Qed.

Lemma loader_batches_length ld g : len (loader_batches ld g) = loader_len ld.
Proof.
  unfold loader_batches, loader_len, len. rewrite chunks_length.
  by rewrite (Permutation_length (sample_order_perm (ld_shuffle ld) g (dataset ld))).
Qed.

Lemma inject_Z_nonzero z : z ≠ 0 → Qeq_bool (inject_Z z) 0 = false.
Proof.
  intros Hz. destruct (Qeq_bool (inject_Z z) 0) eqn:H; [|done].
  apply Qeq_bool_eq in H. unfold Qeq, inject_Z in H. cbn in H. lia.
Qed.

Lemma inject_Z_zero z : Qeq_bool (inject_Z z) 0 = true → z = 0.
Proof.
  intros H%Qeq_bool_eq. unfold Qeq, inject_Z in H. cbn in H. lia.
Qed.

Lemma samples_before_le (batches : list (list Sample)) j :
  0 ≤ samples_before batches j ≤ len (concat batches).
Proof.
  unfold samples_before, len. split; [lia|]. apply inj_le.
  rewrite <- (take_drop j batches) at 2. rewrite concat_app, length_app. lia.
Qed.
End TotalsFacts.

(** ** Runs that do not depend on the files *)

Section Blind.
Context `{T : Torch}.
Local Open Scope Z_scope.

Lemma blind_bind {A B} (m : M A) (k : A → M B) :
  files_blind m → (∀ a, files_blind (k a)) → files_blind (m ≫= k).
Proof.
  intros Hm Hk w1 w2 Hw. destruct (Hm w1 w2 Hw) as (Ho & He & Hf).
  unfold mbind, M_bind, bind. rewrite <- Ho, <- He.
  destruct (outcome (m w1)) as [a|e]; [|done].
  destruct (Hk a _ _ Hf) as (Ho' & He' & Hf'). cbn [outcome final emitted].
  unfold same_run. cbn [outcome final emitted]. by rewrite Ho', He'.
Qed.

Lemma blind_ret {A} (a : A) : files_blind (ret a).
Proof. by intros w1 w2 Hw. Qed.

Lemma blind_emit e : files_blind (emit e).
Proof. by intros w1 w2 Hw. Qed.

Lemma blind_raise {A} e : files_blind (raise (A := A) e).
Proof. by intros w1 w2 Hw. Qed.

Lemma blind_model_train : files_blind model_train.
Proof.
  intros w1 w2 (?&?&?&?&?&?&?). rewrite !model_train_run.
  by repeat split.
Qed.

Lemma blind_scheduler_step s : files_blind (scheduler_step s).
Proof.
  intros w1 w2 (Hp&Ht&Hg&Ho&Hl&He&Hr). rewrite !scheduler_step_run.
  unfold same_run, same_but_files, next_lr. cbn. rewrite Hl, He.
  by repeat split.
Qed.

Lemma blind_torch_save file : files_blind (torch_save file).
Proof.
  intros w1 w2 (Hp&Ht&Hg&Ho&Hl&He&Hr). rewrite !torch_save_run.
  unfold same_run, same_but_files. cbn. rewrite Hp.
  by repeat split.
Qed.

Lemma after_step_blind b w1 w2 :
  same_but_files w1 w2 →
  same_but_files (after_step b w1).1 (after_step b w2).1 ∧
  (after_step b w1).2 = (after_step b w2).2.
Proof.
  intros (Hp&Ht&Hg&Ho&Hl&He&Hr). unfold after_step, same_but_files. cbn.
  rewrite Hp, Ht, Ho, Hl, He, Hr. by repeat split.
Qed.

Lemma same_run_after_events {A} evs (r1 r2 : Run A) :
  same_run r1 r2 → same_run (after_events evs r1) (after_events evs r2).
Proof. intros (Ho & He & Hf). unfold same_run. cbn. by rewrite Ho, He. Qed.

Lemma blind_train_loop args ld k i batches w1 w2 :
  training w1 = true → same_but_files w1 w2 →
  same_run (train_loop args ld k i batches w1) (train_loop args ld k i batches w2).
Proof.
  revert i w1 w2. induction batches as [|b rest IH]; intros i w1 w2 Htr Hw.
  { by cbn. }
  assert (training w2 = true) as Htr2 by (destruct Hw as (_&<-&_); done).
  rewrite !train_loop_cons by done. cbv zeta.
  destruct (after_step_blind b w1 w2 Hw) as (Hw' & Hloss).
  rewrite Hloss.
  assert (cur_lr w1 = cur_lr w2) as -> by (by destruct Hw as (_&_&_&_&?&_)).
  assert (training (after_step b w1).1 = true) as Htr' by done.
  specialize (IH (i + 1) _ _ Htr' Hw').
  repeat case_match; try done; by apply same_run_after_events.
Qed.

Lemma after_iter_blind ld w1 w2 :
  same_but_files w1 w2 → same_but_files (after_iter ld w1) (after_iter ld w2).
Proof.
  intros (Hp&Ht&Hg&Ho&Hl&He&Hr). unfold after_iter, same_but_files.
  cbn. rewrite Hr. by repeat split.
Qed.

Lemma blind_train args ld k : files_blind (train args ld k).
Proof.
  intros w1 w2 Hw. rewrite !train_run.
  assert (rng w1 = rng w2) as -> by (by destruct Hw as (_&_&_&_&_&_&?)).
  apply same_run_after_events, blind_train_loop.
  - by destruct (after_iter_frame ld (with_training true w1)) as (_ & -> & _).
  - apply after_iter_blind. destruct Hw as (?&?&?&?&?&?&?). by repeat split.
Qed.

Lemma blind_test ld : files_blind (test ld).
Proof.
  intros w1 w2 Hw. rewrite !test_run. cbv zeta.
  assert (same_but_files (after_iter ld (with_training false w1))
            (after_iter ld (with_training false w2))) as Hw'.
  { apply after_iter_blind. destruct Hw as (?&?&?&?&?&?&?). by repeat split. }
  destruct Hw as (Hp&Ht&Hg&Ho&Hl&He&Hr). rewrite Hp, Hr.
  by destruct (Qeq_bool _ _).
Qed.

Lemma blind_epoch_body args tl tel s k : files_blind (epoch_body args tl tel s k).
Proof.
  unfold epoch_body. apply blind_bind; [apply blind_train|]. intros _.
  apply blind_bind; [apply blind_test|]. intros _. apply blind_scheduler_step.
Qed.

Lemma blind_for_each {A} (l : list A) body :
  (∀ x, files_blind (body x)) → files_blind (for_each l body).
Proof.
  intros Hb. induction l as [|x l IH]; [apply blind_ret|].
  cbn [for_each]. apply blind_bind; [apply Hb|]. by intros _.
Qed.

Lemma blind_driver args tl tel s : files_blind (driver args tl tel s).
Proof.
  unfold driver. apply blind_bind.
  - apply blind_for_each. intros k. apply blind_epoch_body.
  - intros _. destruct (save_model args); [apply blind_torch_save|apply blind_ret].
Qed.

Lemma bind_lift {A B} (o : Outcome A) (k : A → M B) w :
  (lift o ≫= k) w =
    match o with
    | Ok a => k a w
    | Raise e => {| outcome := Raise e; final := w; emitted := [] |}
    end.
Proof.
  destruct o as [a|e]; [|done].
  erewrite bind_ok by reflexivity. apply after_events_nil.
Qed.

Lemma new_model_run w :
  new_model w =
    {| outcome := Ok tt;
       final := {| params := (cnn_init (rng w)).1; training := true; grads := grads_zero;
                   opt_state := opt_state w; cur_lr := cur_lr w;
                   last_epoch := last_epoch w; rng := (cnn_init (rng w)).2;
                   files := files w |};
       emitted := [] |}.
Proof. reflexivity. Qed.

Lemma new_Adadelta_run l w :
  new_Adadelta l w =
    if Qle_bool 0 l then
      {| outcome := Ok tt;
         final := {| params := params w; training := training w; grads := grads w;
                     opt_state := adadelta_init (params w); cur_lr := l;
                     last_epoch := last_epoch w; rng := rng w; files := files w |};
         emitted := [] |}
    else {| outcome := Raise (ValueError "Invalid learning rate"); final := w;
            emitted := [] |}.
Proof. unfold new_Adadelta. by destruct (Qle_bool 0 l). Qed.

Lemma new_StepLR_run step g w :
  new_StepLR step g w =
    {| outcome := Ok {| step_size := step; sched_gamma := g |};
       final := with_schedule (cur_lr w) 0 w; emitted := [] |}.
Proof. reflexivity. Qed.

Lemma main_run args env w :
  let w0 := with_rng (manual_seed (seed args)) w in
  main args env w =
    match new_DataLoader (load_split (train_raw env)) (train_kwargs args env),
          new_DataLoader (load_split (test_raw env)) (test_kwargs args env) with
    | Ok tl, Ok tel =>
        if Qle_bool 0 (lr args) then
          driver args tl tel (scheduler_of args) (fresh_world args w)
        else {| outcome := Raise (ValueError "Invalid learning rate");
                final := final (new_model w0); emitted := [] |}
    | Raise e, _ => {| outcome := Raise e; final := w0; emitted := [] |}
    | Ok _, Raise e => {| outcome := Raise e; final := w0; emitted := [] |}
    end.
Proof.
  cbv zeta. unfold main.
  erewrite bind_ok by apply set_rng_run. rewrite after_events_nil, bind_lift.
  destruct (new_DataLoader _ (train_kwargs args env)) as [tl|e]; [|done].
  rewrite bind_lift.
  destruct (new_DataLoader _ (test_kwargs args env)) as [tel|e]; [|done].
  erewrite bind_ok by apply new_model_run. rewrite after_events_nil.
  destruct (Qle_bool 0 (lr args)) eqn:Hlr.
  2:{ erewrite bind_raise; [reflexivity|]. by rewrite new_Adadelta_run, Hlr. }
  erewrite bind_ok by (by rewrite new_Adadelta_run, Hlr). rewrite after_events_nil.
  erewrite bind_ok by apply new_StepLR_run. rewrite after_events_nil.
  reflexivity.
Qed.
End Blind.

(** ** The loaders and the dry run *)

Section Setup.
Context `{T : Torch}.
Local Open Scope Z_scope.

Lemma ceil_div_gt (n b : Z) :
  0 < b → n `mod` b ≠ 0 → n < (n + b - 1) / b * b.
Proof.
  intros Hb Hr.
  pose proof (Z.div_mod n b ltac:(lia)) as Hn.
  pose proof (Z.mod_pos_bound n b Hb) as Hm.
  assert ((n + b - 1) / b = n / b + 1) as ->; [|nia].
  symmetry. apply (Z.div_unique _ _ _ (n `mod` b - 1)); lia.
Qed.

Lemma kwargs_batch_size_train args env :
  train_kwargs args env !! "batch_size" = Some (VInt (batch_size args)).
Proof. unfold train_kwargs. destruct (use_cuda args env); reflexivity. Qed.

Lemma kwargs_shuffle_train args env :
  train_kwargs args env !! "shuffle" =
    if use_cuda args env then Some (VBool true) else None.
Proof. unfold train_kwargs. destruct (use_cuda args env); reflexivity. Qed.

Lemma kwargs_batch_size_test args env :
  test_kwargs args env !! "batch_size" = Some (VInt (test_batch_size args)).
Proof. unfold test_kwargs. destruct (use_cuda args env); reflexivity. Qed.

Lemma kwargs_shuffle_test args env :
  test_kwargs args env !! "shuffle" =
    if use_cuda args env then Some (VBool true) else None.
Proof. unfold test_kwargs. destruct (use_cuda args env); reflexivity. Qed.

Lemma new_DataLoader_train args env :
  new_DataLoader (load_split (train_raw env)) (train_kwargs args env) =
    match batch_size args with
    | Z.pos p => Ok {| dataset := load_split (train_raw env); ld_batch_size := p;
                       ld_shuffle := use_cuda args env |}
    | _ => Raise (ValueError "batch_size should be a positive integer value")
    end.
Proof.
  unfold new_DataLoader, kw_int, kw_bool.
  rewrite kwargs_batch_size_train, kwargs_shuffle_train.
  by destruct (use_cuda args env).
Qed.

Lemma new_DataLoader_test args env :
  new_DataLoader (load_split (test_raw env)) (test_kwargs args env) =
    match test_batch_size args with
    | Z.pos p => Ok {| dataset := load_split (test_raw env); ld_batch_size := p;
                       ld_shuffle := use_cuda args env |}
    | _ => Raise (ValueError "batch_size should be a positive integer value")
    end.
Proof.
  unfold new_DataLoader, kw_int, kw_bool.
  rewrite kwargs_batch_size_test, kwargs_shuffle_test.
  by destruct (use_cuda args env).
Qed.

Lemma loader_len_pos ld g b rest :
  loader_batches ld g = b :: rest → Qeq_bool (inject_Z (loader_len ld)) 0 = false.
Proof.
  intros Hb. apply inject_Z_nonzero. rewrite <- (loader_batches_length ld g), Hb.
  unfold len. cbn. lia.
Qed.

Lemma train_dry_run args ld k w :
  dry_run args = true → log_interval args ≠ 0 →
  train args ld k w =
    let w' := after_iter ld (with_training true w) in
    match loader_batches ld (rng w) with
    | [] => {| outcome := Ok tt; final := w'; emitted := [TrainPass k] |}
    | b :: _ =>
        {| outcome := Ok tt; final := (after_step b w').1;
           emitted := [TrainPass k; OptimizerStep k 0 b (cur_lr w);
                       Progress k 0 (len (dataset ld))
                         (100 * inject_Z 0 / inject_Z (loader_len ld))%Q
                         (after_step b w').2] |}
    end.
Proof.
  intros Hdry Hli. rewrite train_run. cbv zeta.
  destruct (after_iter_frame ld (with_training true w)) as (_ & Htr & _ & _ & Hlr & _).
  destruct (loader_batches ld (rng w)) as [|b rest] eqn:Hb; [done|].
  rewrite train_loop_cons by done. cbv zeta.
  rewrite (loader_len_pos _ _ _ _ Hb), Hdry, Hlr.
  destruct (decide (log_interval args = 0)); [done|].
  rewrite Z.mod_0_l by done.
  destruct (decide (0 = 0)); [|done]. reflexivity.
Qed.
End Setup.

(** ** The driver *)

Section DriverFacts.
Context `{T : Torch}.
Local Open Scope Z_scope.

Lemma py_range_epochs (E : Z) : py_range 1 (E + 1) = seqZ 1 (Z.of_nat (Z.to_nat E)).
Proof.
  unfold py_range, seqZ. replace (E + 1 - 1) with E by lia.
  by rewrite Nat2Z.id.
Qed.

Lemma epochs_shape_to_nat k (E : Z) :
  epochs_shape k (Z.of_nat (Z.to_nat E)) = epochs_shape k E.
Proof. unfold epochs_shape, seqZ. by rewrite Nat2Z.id. Qed.

Lemma run_epochs_for_each args tl tel s w :
  run_epochs args tl tel s w =
    for_each (seqZ 1 (Z.of_nat (Z.to_nat (epochs args)))) (epoch_body args tl tel s) w.
Proof. unfold run_epochs. by rewrite py_range_epochs. Qed.

(** The driver is the epoch loop followed, when it ends well and the flag
    is set, by the save. *)
Lemma driver_run args tl tel s w :
  let re := run_epochs args tl tel s w in
  driver args tl tel s w =
    match outcome re with
    | Ok _ =>
        if save_model args then
          {| outcome := Ok tt;
             final := with_files (<["mnist_cnn.pt" := params (final re)]> (files (final re)))
                        (final re);
             emitted := emitted re ++ [Saved "mnist_cnn.pt" (params (final re))] |}
        else {| outcome := Ok tt; final := final re; emitted := emitted re |}
    | Raise e => {| outcome := Raise e; final := final re; emitted := emitted re |}
    end.
Proof.
  cbv zeta. unfold driver.
  destruct (outcome (run_epochs args tl tel s w)) as [[]|e] eqn:Ho.
  - erewrite bind_ok by (rewrite (run_eta (run_epochs _ _ _ _ _)), Ho; reflexivity).
    destruct (save_model args).
    + rewrite torch_save_run. reflexivity.
    + rewrite ret_run. unfold after_events. cbn [outcome final emitted].
      by rewrite app_nil_r.
  - erewrite bind_raise by (rewrite (run_eta (run_epochs _ _ _ _ _)), Ho; reflexivity).
    reflexivity.
Qed.

Lemma elem_of_saves evs f p : Saved f p ∈ evs ↔ (f, p) ∈ saves evs.
Proof.
  unfold saves. rewrite list_elem_of_omap. split.
  - intros H. exists (Saved f p). done.
  - intros (e & He & Heq). destruct e; try done. by simplify_eq.
Qed.
End DriverFacts.

(** ** The schedule over a run of the driver *)

Section ScheduleFacts.
Context `{T : Torch}.
Local Open Scope Z_scope.

Lemma driver_emitted args tl tel s w :
  let re := run_epochs args tl tel s w in
  let r := driver args tl tel s w in
  outcome r = outcome re ∧
  ∃ extra, emitted r = emitted re ++ extra ∧
    ((extra = [Saved "mnist_cnn.pt" (params (final re))] ∧ save_model args = true ∧
      outcome re = Ok tt) ∨
     (extra = [] ∧ (save_model args = false ∨ ∃ e, outcome re = Raise e))).
Proof.
  cbv zeta. rewrite driver_run. cbv zeta.
  destruct (outcome (run_epochs args tl tel s w)) as [[]|e] eqn:Ho.
  - destruct (save_model args) eqn:Hs; cbn [outcome emitted]; (split; [done|]).
    + eexists. split; [reflexivity|]. by left.
    + exists []. rewrite app_nil_r. split; [done|]. right. auto.
  - cbn [outcome emitted]. split; [done|]. exists []. rewrite app_nil_r.
    split; [done|]. right. split; [done|]. right. eauto.
Qed.

Lemma schedule_of_epoch_lookup args (n : nat) (j : nat) a b :
  (schedule_of_epoch args <$> seqZ 1 (Z.of_nat n)) !! j = Some (a, b) →
  (a == lr args * gamma args ^ Z.of_nat j)%Q ∧ b = (a * gamma args)%Q ∧ (j < n)%nat.
Proof.
  rewrite list_lookup_fmap. intros H.
  destruct (seqZ 1 (Z.of_nat n) !! j) as [k|] eqn:Hk; [|done].
  apply lookup_seqZ in Hk as [-> Hj]. cbn in H. unfold schedule_of_epoch in H.
  simplify_eq. split; [|split; [|lia]].
  - rewrite lr_of_epoch_closed by lia. by replace (1 + Z.of_nat j - 1) with (Z.of_nat j) by lia.
  - apply lr_of_epoch_succ. lia.
Qed.

Lemma driver_schedule args tl tel w :
  cur_lr w = lr args → last_epoch w = 0 →
  let r := driver args tl tel (scheduler_of args) w in
  let tail := if save_model args then [PSave "mnist_cnn.pt"] else [] in
  (∀ k i b l, OptimizerStep k i b l ∈ emitted r →
     1 ≤ k ≤ epochs args ∧ (l == lr args * gamma args ^ (k - 1))%Q) ∧
  (∀ j a b, schedule_steps (emitted r) !! j = Some (a, b) →
     (a == lr args * gamma args ^ Z.of_nat j)%Q ∧ b = (a * gamma args)%Q ∧
     (j < Z.to_nat (epochs args))%nat) ∧
  shape (emitted r) `prefix_of` epochs_shape 1 (epochs args) ++ tail ∧
  (outcome r = Ok tt →
     shape (emitted r) = epochs_shape 1 (epochs args) ++ tail ∧
     length (schedule_steps (emitted r)) = Z.to_nat (epochs args)).
Proof.
  intros Hlr Hle. cbv zeta.
  destruct (driver_emitted args tl tel (scheduler_of args) w) as (Ho & extra & Hev & Hextra).
  rewrite Ho, Hev. clear Ho Hev.
  rewrite run_epochs_for_each in *.
  destruct (epochs_run_lr args tl tel (Z.to_nat (epochs args)) 1 w)
    as (Hsteps & Hsched & Hsched_ok); [lia|done|lia|].
  destruct (epochs_run_shape args tl tel (scheduler_of args) (Z.to_nat (epochs args)) 1 w)
    as (_ & _ & Hpre & Hok & _).
  rewrite epochs_shape_to_nat in Hpre, Hok.
  set (re := for_each _ _ w) in *. clearbody re.
  assert (schedule_steps (emitted re ++ extra) = schedule_steps (emitted re)) as Hss.
  { unfold schedule_steps. rewrite omap_app.
    destruct Hextra as [(-> & _)|(-> & _)]; cbn; by rewrite app_nil_r. }
  assert (shape (emitted re ++ extra) =
          shape (emitted re) ++
          match extra with [] => [] | _ => [PSave "mnist_cnn.pt"] end) as Hsh.
  { unfold shape. rewrite omap_app. by destruct Hextra as [(-> & _)|(-> & _)]. }
  rewrite Hss, Hsh. split; [|split; [|split]].
  - intros k i b l Hin. apply elem_of_app in Hin as [Hin|Hin].
    2:{ destruct Hextra as [(-> & _)|(-> & _)].
        - by apply list_elem_of_singleton in Hin.
        - by apply elem_of_nil in Hin. }
    rewrite Forall_forall in Hsteps. specialize (Hsteps _ Hin) as [Hk ->].
    split; [lia|]. apply lr_of_epoch_closed. lia.
  - intros j a b Hj. eapply schedule_of_epoch_lookup.
    eapply prefix_lookup_Some; [exact Hj|exact Hsched].
  - destruct Hextra as [(-> & -> & Hre)|(-> & _)].
    + destruct (Hok Hre) as [-> _]. done.
    + rewrite app_nil_r. by apply prefix_app_r.
  - intros Hre. destruct (Hok Hre) as [-> Hlen]. split; [|done].
    f_equal. destruct Hextra as [(-> & -> & _)|(-> & [->|(e & He)])]; try done.
    congruence.
Qed.
End ScheduleFacts.

(** ** Runs that end well *)

Section Totality.
Context `{T : Torch}.
Local Open Scope Z_scope.

Lemma train_loop_ok args ld k i batches w :
  training w = true → log_interval args ≠ 0 → loader_len ld ≠ 0 →
  outcome (train_loop args ld k i batches w) = Ok tt.
Proof.
  intros Htr Hli Hlen. revert i w Htr.
  induction batches as [|b rest IH]; intros i w Htr; [done|].
  rewrite train_loop_cons by done. cbv zeta.
  rewrite (inject_Z_nonzero _ Hlen).
  destruct (decide (log_interval args = 0)); [done|].
  destruct (decide (i `mod` log_interval args = 0)), (dry_run args);
    cbn [outcome after_events]; try done; by apply IH.
Qed.

Lemma train_ok args ld k w :
  log_interval args ≠ 0 → outcome (train args ld k w) = Ok tt.
Proof.
  intros Hli. rewrite train_run. cbn [outcome after_events].
  destruct (loader_batches ld (rng w)) as [|b rest] eqn:Hb; [done|].
  apply train_loop_ok; [done|done|].
  rewrite <- (loader_batches_length ld (rng w)), Hb. unfold len. cbn. lia.
Qed.

Lemma test_ok ld w : dataset ld ≠ [] → outcome (test ld w) = Ok tt.
Proof.
  intros Hds. rewrite test_run. cbv zeta.
  rewrite inject_Z_nonzero; [done|]. destruct (dataset ld); [done|]. unfold len. cbn. lia.
Qed.

Lemma epoch_body_ok args tl tel s k w :
  log_interval args ≠ 0 → dataset tel ≠ [] →
  outcome (epoch_body args tl tel s k w) = Ok tt.
Proof.
  intros Hli Hds. unfold epoch_body.
  erewrite bind_ok by (rewrite (run_eta (train _ _ _ _)), train_ok by done; reflexivity).
  erewrite bind_ok by (rewrite (run_eta (test _ _)), test_ok by done; reflexivity).
  reflexivity.
Qed.

Lemma for_each_ok {A} (l : list A) (body : A → M unit) w :
  (∀ x w', outcome (body x w') = Ok tt) → outcome (for_each l body w) = Ok tt.
Proof.
  intros Hb. revert w. induction l as [|x l IH]; intros w; [done|].
  cbn [for_each].
  erewrite bind_ok by (rewrite (run_eta (body _ _)), Hb; reflexivity).
  apply IH.
Qed.

(** A driver whose log interval is not 0 and whose evaluation split is not
    empty goes through all its epochs and ends well. *)
Lemma driver_ok args tl tel s w :
  log_interval args ≠ 0 → dataset tel ≠ [] →
  outcome (driver args tl tel s w) = Ok tt.
Proof.
  intros Hli Hds. destruct (driver_emitted args tl tel s w) as [-> _].
  apply for_each_ok. intros k w'. by apply epoch_body_ok.
Qed.

Lemma main_ok args env w :
  0 < batch_size args → 0 < test_batch_size args → (0 <= lr args)%Q →
  log_interval args ≠ 0 → test_raw env ≠ [] → outcome (main args env w) = Ok tt.
Proof.
  intros Hb Htb Hlr Hli Hds.
  rewrite main_run, new_DataLoader_train, new_DataLoader_test.
  cbv zeta.
  destruct (batch_size args) as [|p|p]; try lia.
  destruct (test_batch_size args) as [|q|q]; try lia.
  apply Qle_bool_iff in Hlr. rewrite Hlr.
  apply driver_ok; [done|]. cbn. by destruct (test_raw env).
Qed.
End Totality.

(** ** What the training pass logs *)

Section Logging.
Context `{T : Torch}.
Local Open Scope Z_scope.

Lemma progress_lines_app evs1 evs2 :
  progress_lines (evs1 ++ evs2) = progress_lines evs1 ++ progress_lines evs2.
Proof. apply filter_app. Qed.

Lemma train_batches_app evs1 evs2 :
  train_batches (evs1 ++ evs2) = train_batches evs1 ++ train_batches evs2.
Proof. apply omap_app. Qed.

Lemma progress_line_of_cons ld k i b rest e j :
  progress_line_of ld k (i + 1) rest e j → progress_line_of ld k i (b :: rest) e j.
Proof.
  intros (Hj & b' & loss & Hb & ->). split; [lia|]. exists b', loss. split; [|done].
  replace (Z.to_nat (j - i)) with (S (Z.to_nat (j - (i + 1)))) by lia. done.
Qed.

Lemma logged_indices_succ li i n :
  logged_indices li i (S n) =
    (if decide (i `mod` li = 0) then [i] else []) ++ logged_indices li (i + 1) n.
Proof.
  unfold logged_indices. rewrite seqZ_succ, filter_cons. by case_decide.
Qed.

(** Without [dry_run] and with a log interval other than 0, a training
    loop takes every batch through the optimizer, in order; its final state
    is the one the steps alone produce, whatever is logged; and it prints
    one line per batch index that is a multiple of the interval, in
    order. *)
Lemma train_loop_logging args ld k i batches w :
  training w = true → dry_run args = false → log_interval args ≠ 0 →
  loader_len ld ≠ 0 →
  let r := train_loop args ld k i batches w in
  outcome r = Ok tt ∧ final r = after_steps batches w ∧
  (train_batches (emitted r)).*2 = batches ∧
  Forall2 (progress_line_of ld k i batches) (progress_lines (emitted r))
    (logged_indices (log_interval args) i (length batches)).
Proof.
  intros Htr Hdry Hli Hlen. revert i w Htr.
  induction batches as [|b rest IH]; intros i w Htr.
  { cbn. repeat split; (done || constructor). }
  cbv zeta. rewrite train_loop_cons by done. cbv zeta.
  rewrite Hdry, (inject_Z_nonzero _ Hlen).
  destruct (decide (log_interval args = 0)) as [|_]; [done|].
  destruct (IH (i + 1) (after_step b w).1) as (IHo & IHf & IHb & IHp); [done|].
  cbn [length]. rewrite logged_indices_succ.
  destruct (decide (i `mod` log_interval args = 0)) as [Hi|Hi];
    cbn [outcome final emitted after_events].
  - split; [done|]. split; [done|]. split.
    + rewrite train_batches_app, fmap_app, IHb. reflexivity.
    + rewrite progress_lines_app. apply Forall2_app.
      * unfold progress_lines. cbn. constructor; [|constructor].
        split; [lia|]. eexists b, _. replace (Z.to_nat (i - i)) with O by lia.
        split; [done|]. unfold len. by rewrite length_fmap.
      * eapply Forall2_impl; [exact IHp|]. intros e j. apply progress_line_of_cons.
  - split; [done|]. split; [done|]. split.
    + rewrite train_batches_app, fmap_app, IHb. reflexivity.
    + rewrite progress_lines_app. cbn [app].
      eapply Forall2_impl; [exact IHp|]. intros e j. apply progress_line_of_cons.
Qed.

(** The count a progress line shows is the number of samples in the
    batches before its own when these all have the size of its own, as the
    full batches of a loader have. *)
Lemma seen_is_samples_before (batches : list (list Sample)) (j : nat) b :
  batches !! j = Some b →
  Forall (λ b', length b' = length b) (take j batches) →
  Z.of_nat j * len b = samples_before batches j.
Proof.
  intros Hb Hall. unfold samples_before, len.
  assert (length (take j batches) = j) as Hj.
  { apply lookup_lt_Some in Hb. rewrite length_take. lia. }
  revert Hall Hj. generalize (take j batches). clear Hb.
  intros pre. revert j. induction pre as [|b' pre IH]; intros j Hall Hj.
  - cbn in *. lia.
  - apply Forall_cons in Hall as [Hb' Hall]. cbn [concat]. rewrite length_app, Hb'.
    destruct j as [|j]; [done|].
    specialize (IH j Hall). cbn in Hj. lia.
Qed.
End Logging.

(** * The properties of the specification *)

Section DriverProperties.
Context `{T : Torch}.
Local Open Scope Z_scope.

(** C1. In every run of the program, each optimizer step taken in the
    training pass of epoch [k] uses the learning rate [lr * gamma ^ (k - 1)];
    the passes go training, evaluation, schedule step for the epochs 1, 2, ...
    in turn (a run that aborts stops somewhere along that sequence, a run that
    ends well has gone through all of it, so it has exactly one schedule step
    per epoch, right after the epoch's evaluation pass); and the schedule step
    that ends epoch [j + 1] turns the rate [lr * gamma ^ j] into that rate
    times [gamma]. A run with positive batch sizes, a learning rate that is
    not negative, a log interval other than 0 and a non-empty evaluation
    split ends well. *)
Theorem C1_learning_rate_schedule (args : Args) (env : Env) (w : World) :
  let r := main args env w in
  let tail := if save_model args then [PSave "mnist_cnn.pt"] else [] in
  (∀ k i b l, OptimizerStep k i b l ∈ emitted r →
     1 ≤ k ≤ epochs args ∧ (l == lr args * gamma args ^ (k - 1))%Q) ∧
  (∀ j a b, schedule_steps (emitted r) !! j = Some (a, b) →
     (a == lr args * gamma args ^ Z.of_nat j)%Q ∧ b = (a * gamma args)%Q ∧
     (j < Z.to_nat (epochs args))%nat) ∧
  shape (emitted r) `prefix_of` epochs_shape 1 (epochs args) ++ tail ∧
  (outcome r = Ok tt →
     shape (emitted r) = epochs_shape 1 (epochs args) ++ tail ∧
     length (schedule_steps (emitted r)) = Z.to_nat (epochs args)) ∧
  (0 < batch_size args → 0 < test_batch_size args → (0 <= lr args)%Q →
   log_interval args ≠ 0 → test_raw env ≠ [] → outcome r = Ok tt).
Proof.
  cbv zeta.
  match goal with
  | |- ?A ∧ ?B ∧ ?C ∧ ?D ∧ _ =>
      enough (A ∧ B ∧ C ∧ D) as (H1 & H2 & H3 & H4)
        by (split_and!; [exact H1|exact H2|exact H3|exact H4|apply main_ok])
  end.
  rewrite main_run. cbv zeta.
  destruct (new_DataLoader _ (train_kwargs args env)) as [tl|e].
  2:{ cbn [outcome emitted]. split; [by intros ? ? ? ? ?%elem_of_nil|].
      split; [done|]. split; [apply prefix_nil|done]. }
  destruct (new_DataLoader _ (test_kwargs args env)) as [tel|e].
  2:{ cbn [outcome emitted]. split; [by intros ? ? ? ? ?%elem_of_nil|].
      split; [done|]. split; [apply prefix_nil|done]. }
  destruct (Qle_bool 0 (lr args)).
  2:{ cbn [outcome emitted]. split; [by intros ? ? ? ? ?%elem_of_nil|].
      split; [done|]. split; [apply prefix_nil|done]. }
  by apply driver_schedule.
Qed.

(** C7. The driver writes the parameter file if and only if [save_model] is
    set and the epoch loop has ended without an error, which is the case
    exactly when every configured epoch has reached its schedule step (and
    then each epoch was a training pass, an evaluation pass and a schedule
    step). The file is written once, as the last event of the run, under the
    name mnist_cnn.pt, and holds the parameters of the final state; when a
    pass raises, the error is the driver's outcome and nothing is written.
    With a log interval other than 0 and a non-empty evaluation split no pass
    raises. *)
Theorem C7_save_iff_epochs_completed (args : Args) (tl tel : DataLoader) (s : StepLR)
    (w : World) :
  let re := run_epochs args tl tel s w in
  let r := driver args tl tel s w in
  (outcome re = Ok tt ↔ length (schedule_steps (emitted re)) = Z.to_nat (epochs args)) ∧
  (outcome re = Ok tt → shape (emitted re) = epochs_shape 1 (epochs args)) ∧
  ((∃ f p, Saved f p ∈ emitted r) ↔ save_model args = true ∧ outcome re = Ok tt) ∧
  (save_model args = true → outcome re = Ok tt →
     outcome r = Ok tt ∧
     emitted r = emitted re ++ [Saved "mnist_cnn.pt" (params (final re))] ∧
     saves (emitted r) = [("mnist_cnn.pt", params (final r))] ∧
     files (final r) = <["mnist_cnn.pt" := params (final r)]> (files w)) ∧
  (∀ e, outcome re = Raise e →
     outcome r = Raise e ∧ saves (emitted r) = [] ∧ files (final r) = files w) ∧
  (save_model args = false → saves (emitted r) = [] ∧ files (final r) = files w) ∧
  (log_interval args ≠ 0 → dataset tel ≠ [] → outcome re = Ok tt).
Proof.
  cbv zeta.
  match goal with
  | |- ?A ∧ ?B ∧ ?C ∧ ?D ∧ ?E ∧ ?F ∧ _ =>
      enough (A ∧ B ∧ C ∧ D ∧ E ∧ F) as (H1 & H2 & H3 & H4 & H5 & H6)
  end.
  { split_and!; [exact H1|exact H2|exact H3|exact H4|exact H5|exact H6|].
    intros Hli Hds. unfold run_epochs. apply for_each_ok.
    intros k w'. by apply epoch_body_ok. }
  rewrite driver_run. cbv zeta. rewrite run_epochs_for_each.
  destruct (epochs_run_shape args tl tel s (Z.to_nat (epochs args)) 1 w)
    as (Hf & Hsv & _ & Hok & Herr).
  rewrite epochs_shape_to_nat in Hok.
  set (re := for_each _ _ w) in *. clearbody re.
  assert (outcome re = Ok () ↔
          length (schedule_steps (emitted re)) = Z.to_nat (epochs args)) as Hiff.
  { split; [by intros [_ ?]%Hok|]. intros Hlen.
    destruct (outcome re) as [[]|e] eqn:Ho; [done|]. specialize (Herr e eq_refl). lia. }
  split; [done|]. split; [by intros [? _]%Hok|].
  destruct (outcome re) as [[]|e] eqn:Ho.
  - destruct (save_model args) eqn:Hs; cbn [outcome final emitted].
    + split.
      { split; [done|]. intros _. eexists _, _. apply elem_of_app. right.
        by apply list_elem_of_singleton. }
      split; [|by split].
      intros _ _. split; [done|]. split; [done|]. split.
      * unfold saves in *. rewrite omap_app, Hsv. done.
      * cbn [files params with_files]. by rewrite Hf.
    + split.
      { split; [|by intros []]. intros (f & p & Hin%elem_of_saves).
        rewrite Hsv in Hin. by apply elem_of_nil in Hin. }
      split; [done|]. split; [done|]. by intros _.
  - cbn [outcome final emitted]. split.
    { split; [|by intros []]. intros (f & p & Hin%elem_of_saves).
      rewrite Hsv in Hin. by apply elem_of_nil in Hin. }
    split; [done|]. split; [|by intros _]. by intros ? [= <-].
Qed.

Lemma run_epochs_none args tl tel s w :
  epochs args ≤ 0 →
  run_epochs args tl tel s w = {| outcome := Ok tt; final := w; emitted := [] |}.
Proof.
  intros HE. unfold run_epochs, py_range. rewrite seqZ_nil by lia. reflexivity.
Qed.

Lemma driver_none args tl tel s w :
  epochs args ≤ 0 →
  driver args tl tel s w =
    if save_model args then
      {| outcome := Ok tt; final := with_files (<["mnist_cnn.pt" := params w]> (files w)) w;
         emitted := [Saved "mnist_cnn.pt" (params w)] |}
    else {| outcome := Ok tt; final := w; emitted := [] |}.
Proof.
  intros HE. rewrite driver_run. cbv zeta. rewrite run_epochs_none by done.
  cbn [outcome final emitted]. by destruct (save_model args).
Qed.

(** C10. With [epochs <= 0] the driver runs no training pass, no evaluation
    pass and no schedule step and ends without an error; with [save_model]
    set its only event is the save of the parameters it was entered with,
    which in the whole program are those of the freshly constructed
    model. *)
Theorem C10_no_epochs (args : Args) (tl tel : DataLoader) (s : StepLR) (w : World) :
  epochs args ≤ 0 →
  let r := driver args tl tel s w in
  outcome r = Ok tt ∧
  shape (emitted r) = (if save_model args then [PSave "mnist_cnn.pt"] else []) ∧
  train_batches (emitted r) = [] ∧ eval_batches (emitted r) = [] ∧
  schedule_steps (emitted r) = [] ∧
  emitted r = (if save_model args then [Saved "mnist_cnn.pt" (params w)] else []) ∧
  final r = (if save_model args
             then with_files (<["mnist_cnn.pt" := params w]> (files w)) w else w) ∧
  (∀ env, 0 < batch_size args → 0 < test_batch_size args → (0 <= lr args)%Q →
     outcome (main args env w) = Ok tt ∧
     emitted (main args env w) =
       (if save_model args
        then [Saved "mnist_cnn.pt" (cnn_init (manual_seed (seed args))).1] else [])).
Proof.
  intros HE. cbv zeta. rewrite driver_none by done.
  split; [by destruct (save_model args)|].
  split; [by destruct (save_model args)|].
  split; [by destruct (save_model args)|].
  split; [by destruct (save_model args)|].
  split; [by destruct (save_model args)|].
  split; [by destruct (save_model args)|].
  split; [by destruct (save_model args)|].
  intros env Hb Htb Hlr. rewrite main_run, new_DataLoader_train, new_DataLoader_test.
  cbv zeta.
  destruct (batch_size args) as [|p|p]; try lia.
  destruct (test_batch_size args) as [|q|q]; try lia.
  apply Qle_bool_iff in Hlr. rewrite Hlr.
  rewrite driver_none by done. cbn [fresh_world params].
  by destruct (save_model args).
Qed.

Lemma main_blind args env w1 w2 :
  outcome (main args env w1) = outcome (main args env w2) ∧
  emitted (main args env w1) = emitted (main args env w2).
Proof.
  rewrite !main_run. cbv zeta.
  destruct (new_DataLoader _ (train_kwargs args env)) as [tl|e]; [|done].
  destruct (new_DataLoader _ (test_kwargs args env)) as [tel|e]; [|done].
  destruct (Qle_bool 0 (lr args)); [|done].
  destruct (blind_driver args tl tel (scheduler_of args)
              (fresh_world args w1) (fresh_world args w2)) as (Ho & He & _); [|done].
  by repeat split.
Qed.

(** C8. Two runs of the program with the same arguments (hence the same
    seed) and the same surroundings (accelerator, datasets), started from any
    two states of the process, take the same training batches in the same
    order in every epoch; they even produce the same events and the same
    outcome. *)
Theorem C8_same_seed_same_orderings (args : Args) (env : Env) (w1 w2 : World) :
  let r1 := main args env w1 in
  let r2 := main args env w2 in
  train_batches (emitted r1) = train_batches (emitted r2) ∧
  emitted r1 = emitted r2 ∧ outcome r1 = outcome r2.
Proof.
  cbv zeta. destruct (main_blind args env w1 w2) as [Ho He].
  by rewrite He, Ho.
Qed.

(** C9. An evaluation pass leaves the parameters, the optimizer's state, the
    gradient buffers, the learning rate, the scheduler's counter and the files
    as they were, whether it ends well or raises; it leaves the model in
    evaluation mode, takes no optimizer step, no schedule step and writes
    nothing. The state after the pass is the state before it with the mode
    flag cleared (and the generator moved by the draws of the loader's
    iterator). *)
Theorem C9_evaluation_frame (ld : DataLoader) (w : World) :
  let r := test ld w in
  params (final r) = params w ∧ opt_state (final r) = opt_state w ∧
  grads (final r) = grads w ∧ cur_lr (final r) = cur_lr w ∧
  last_epoch (final r) = last_epoch w ∧ files (final r) = files w ∧
  training (final r) = false ∧
  final r = after_iter ld (with_training false w) ∧
  train_batches (emitted r) = [] ∧ schedule_steps (emitted r) = [] ∧
  saves (emitted r) = [].
Proof.
  cbv zeta.
  destruct (test_events ld w) as (evs & Hev & Hevs & Hp & Hg & Ho & Hl & He & Hf & Ht).
  destruct (eval_event_silent _ Hevs) as (_ & Hss & Hsv & Htb).
  assert (final (test ld w) = after_iter ld (with_training false w)) as Hfin.
  { rewrite test_run. cbv zeta. by destruct (Qeq_bool _ _). }
  repeat split; try done.
  - rewrite Hev. exact Htb.
  - rewrite Hev. exact Hss.
  - rewrite Hev. exact Hsv.
Qed.
End DriverProperties.

(** ** The evaluation pass *)

Section EvalProperties.
Context `{T : Torch}.
Local Open Scope Z_scope.

Lemma eval_batches_fmap (batches : list (list Sample)) :
  eval_batches (EvalBatch <$> batches) = batches.
Proof.
  unfold eval_batches. induction batches as [|b bs IH]; [done|].
  cbn [fmap list_fmap omap list_omap]. by rewrite IH.
Qed.

Lemma len_nonempty {A} (l : list A) : l ≠ [] → 0 < len l.
Proof. destruct l; [done|]. intros _. unfold len. cbn. lia. Qed.

Lemma inject_Z_pos (n : Z) : 0 < n → (0 < inject_Z n)%Q.
Proof. intros Hn. change 0%Q with (inject_Z 0). by rewrite <- Zlt_Qlt. Qed.

Lemma inject_Z_nonneg (n : Z) : 0 ≤ n → (0 <= inject_Z n)%Q.
Proof. intros Hn. change 0%Q with (inject_Z 0). by rewrite <- Zle_Qle. Qed.

Lemma pct_bounds (c n : Z) :
  0 ≤ c ≤ n → 0 < n → (0 <= 100 * inject_Z c / inject_Z n <= 100)%Q.
Proof.
  intros [Hc Hcn] Hn.
  pose proof (inject_Z_pos n Hn) as Hn'.
  pose proof (inject_Z_nonneg c Hc) as Hc'.
  assert (inject_Z c <= inject_Z n)%Q as Hcn' by (by rewrite <- Zle_Qle).
  split.
  - apply Qle_shift_div_l; [done|]. lra.
  - apply Qle_shift_div_r; [done|]. lra.
Qed.

Lemma avg_nonneg (cum : Q) (n : Z) : (0 <= cum)%Q → 0 < n → (0 <= cum / inject_Z n)%Q.
Proof.
  intros Hc Hn.
  pose proof (inject_Z_pos n Hn) as Hn'.
  apply Qle_shift_div_l; [done|]. lra.
Qed.

Lemma eval_totals_total p ld g l c :
  ((eval_totals p (loader_batches ld g) l c).1 ==
     l + Qsum (sample_nll p <$> dataset ld))%Q.
Proof.
  rewrite eval_totals_loss.
  by rewrite (Qsum_perm _ _ (fmap_Permutation (sample_nll p) _ _
                               (loader_batches_perm ld g))).
Qed.

(** C3. Over a non-empty evaluation split the pass ends well; the
    accumulated loss with which the batch loop ends is the sum of the
    per-sample losses over the whole split, whatever the batching; the
    reported average is that sum divided by the number of samples of the
    split. The batches hold between one sample and the batch size, and when
    the batch size does not divide the size of the split, that size is less
    than the number of batches times the batch size. *)
Theorem C3_average_loss (ld : DataLoader) (w : World) :
  dataset ld ≠ [] →
  let r := test ld w in
  let batches := loader_batches ld (rng w) in
  let n := len (dataset ld) in
  let total := Qsum (sample_nll (params w) <$> dataset ld) in
  ∃ cum correct pct,
    outcome (test_loop batches 0%Q 0 (after_iter ld (with_training false w))) =
      Ok (cum, correct) ∧
    (cum == total)%Q ∧
    outcome r = Ok tt ∧
    emitted r = EvalPass :: (EvalBatch <$> batches) ++
                [Summary (cum / inject_Z n) correct n pct] ∧
    (cum / inject_Z n == total / inject_Z n)%Q ∧
    concat batches ≡ₚ dataset ld ∧
    Forall (λ b, (1 ≤ length b ≤ Pos.to_nat (ld_batch_size ld))%nat) batches ∧
    (n `mod` Z.pos (ld_batch_size ld) ≠ 0 →
       n < len batches * Z.pos (ld_batch_size ld)).
Proof.
  intros Hds. cbv zeta.
  pose proof (len_nonempty _ Hds) as Hn.
  destruct (after_iter_frame ld (with_training false w)) as (Hp & Htr & _).
  rewrite test_loop_run, test_run by done. cbv zeta.
  rewrite inject_Z_nonzero by lia. rewrite Hp. cbn [params with_training].
  pose proof (eval_totals_total (params w) ld (rng w) 0%Q 0) as Hcum.
  destruct (eval_totals (params w) (loader_batches ld (rng w)) 0%Q 0) as [cum c].
  cbn [fst snd] in *.
  assert (cum == Qsum (sample_nll (params w) <$> dataset ld))%Q as Hcum'.
  { rewrite Hcum. ring. }
  eexists cum, c, _. split; [done|]. split; [done|]. split; [done|].
  split; [done|]. split; [by rewrite Hcum'|]. split; [apply loader_batches_perm|].
  split; [apply chunks_sizes|].
  intros Hmod. rewrite loader_batches_length. unfold loader_len.
  by apply ceil_div_gt.
Qed.
End EvalProperties.

(** ** Dry run and shuffling *)

Section LoaderProperties.
Context `{T : Torch}.
Local Open Scope Z_scope.

Lemma sample_nll_nonneg p (ds : list Sample) :
  (∀ s i, s ∈ ds → (predict p (image s) !!! i <= 0)%Q) →
  (0 <= Qsum (sample_nll p <$> ds))%Q.
Proof.
  intros Hlp. apply Qsum_nonneg, Forall_fmap, Forall_forall.
  intros s Hs. unfold compose, sample_nll, nll. specialize (Hlp s (label s) Hs).
  apply (Qopp_le_compat _ 0) in Hlp. exact Hlp.
Qed.

(** C5. After any number [j] of evaluation batches the count of correct
    predictions is between 0 and the number of samples in those batches, hence
    at most the size of the split; in the reported summary the total is the
    size of the split, the count is within it, the percentage lies in
    [0, 100] and, when every log-probability the model gives on the split is
    at most 0, the average loss is at least 0. A non-empty split always gets
    its summary. *)
Theorem C5_evaluation_bounds (ld : DataLoader) (w : World) :
  let r := test ld w in
  let batches := loader_batches ld (rng w) in
  let n := len (dataset ld) in
  (∀ j, ∃ l c,
     outcome (test_loop (take j batches) 0%Q 0 (after_iter ld (with_training false w))) =
       Ok (l, c) ∧
     0 ≤ c ≤ samples_before batches j ∧ samples_before batches j ≤ n) ∧
  (∀ avg c total pct, Summary avg c total pct ∈ emitted r →
     total = n ∧ 0 ≤ c ≤ n ∧ (0 <= pct <= 100)%Q ∧
     ((∀ s i, s ∈ dataset ld → (predict (params w) (image s) !!! i <= 0)%Q) →
      (0 <= avg)%Q)) ∧
  (dataset ld ≠ [] →
     outcome r = Ok tt ∧ ∃ avg c pct, last (emitted r) = Some (Summary avg c n pct)).
Proof.
  cbv zeta.
  destruct (after_iter_frame ld (with_training false w)) as (Hp & Htr & _).
  assert (len (concat (loader_batches ld (rng w))) = len (dataset ld)) as Hlen.
  { unfold len. by rewrite (Permutation_length (loader_batches_perm ld (rng w))). }
  split; [|split].
  - intros j. rewrite test_loop_run by done.
    destruct (eval_totals _ (take j _) 0%Q 0) as [l c] eqn:Htot.
    exists l, c. split; [done|].
    pose proof (eval_totals_correct (params (after_iter ld (with_training false w)))
                  (take j (loader_batches ld (rng w))) 0%Q 0) as Hc.
    rewrite Htot in Hc. cbn [snd] in Hc.
    pose proof (samples_before_le (loader_batches ld (rng w)) j) as Hb.
    unfold samples_before in *. lia.
  - intros avg c total pct Hin. rewrite test_run in Hin. cbv zeta in Hin.
    destruct (Qeq_bool (inject_Z (len (dataset ld))) 0) eqn:Hn; cbn [emitted] in Hin.
    { apply elem_of_cons in Hin as [?|Hin]; [done|].
      apply list_elem_of_fmap in Hin as (? & ? & _). done. }
    apply elem_of_cons in Hin as [?|Hin]; [done|].
    apply elem_of_app in Hin as [Hin|Hin].
    { apply list_elem_of_fmap in Hin as (? & ? & _). done. }
    apply list_elem_of_singleton in Hin. injection Hin as -> -> -> ->.
    assert (0 < len (dataset ld)) as Hpos.
    { destruct (dataset ld); [done|]. unfold len. cbn. lia. }
    pose proof (eval_totals_correct (params w) (loader_batches ld (rng w)) 0%Q 0) as Hc.
    rewrite Hlen in Hc.
    split; [done|]. split; [lia|]. split; [apply pct_bounds; lia|].
    intros Hlp. apply avg_nonneg; [|done].
    rewrite eval_totals_total. pose proof (sample_nll_nonneg _ _ Hlp). lra.
  - intros Hds. rewrite test_run. cbv zeta.
    rewrite inject_Z_nonzero by (pose proof (len_nonempty _ Hds); lia).
    cbn [outcome emitted]. split; [done|]. eexists _, _, _.
    rewrite app_comm_cons. apply last_snoc.
Qed.

Lemma eval_batches_app evs1 evs2 :
  eval_batches (evs1 ++ evs2) = eval_batches evs1 ++ eval_batches evs2.
Proof. apply omap_app. Qed.

Lemma test_eval_batches ld w :
  eval_batches (emitted (test ld w)) = loader_batches ld (rng w).
Proof.
  rewrite test_run. cbv zeta. destruct (Qeq_bool _ _); cbn [emitted].
  - change (EvalPass :: ?l) with ([EvalPass] ++ l).
    rewrite eval_batches_app, eval_batches_fmap. done.
  - change (EvalPass :: ?l) with ([EvalPass] ++ l).
    rewrite !eval_batches_app, eval_batches_fmap. cbn. apply app_nil_r.
Qed.

(** C2, as amended. With [dry_run] set and [log_interval >= 1] a training pass
    ends well after the first batch of the sequence, if there is one: it takes
    one optimizer step, on batch 0, prints that batch's progress line and
    stops, whatever the batch size and however many batches follow; over an
    empty sequence it takes no step. The evaluation pass of the same epoch
    scores every batch of the evaluation loader, that is the whole
    split. *)
Theorem C2_dry_run_first_batch_only (args : Args) (tl tel : DataLoader) (s : StepLR)
    (k : Z) (w : World) :
  dry_run args = true → 1 ≤ log_interval args →
  let r := train args tl k w in
  let batches := loader_batches tl (rng w) in
  let re := epoch_body args tl tel s k w in
  outcome r = Ok tt ∧
  train_batches (emitted r) = (λ b, (k, 0, b)) <$> take 1 batches ∧
  (batches = [] → emitted r = [TrainPass k]) ∧
  (∀ b rest, batches = b :: rest →
     ∃ pct loss, emitted r = [TrainPass k; OptimizerStep k 0 b (cur_lr w);
                              Progress k 0 (len (dataset tl)) pct loss]) ∧
  eval_batches (emitted re) = loader_batches tel (rng (final r)) ∧
  concat (eval_batches (emitted re)) ≡ₚ dataset tel.
Proof.
  intros Hdry Hli. cbv zeta.
  assert (eval_batches (emitted (epoch_body args tl tel s k w)) =
          loader_batches tel (rng (final (train args tl k w)))) as Heval.
  { unfold epoch_body.
    assert (outcome (train args tl k w) = Ok tt ∧
            eval_batches (emitted (train args tl k w)) = []) as [Ho Hno].
    { rewrite train_dry_run by (done || lia). cbv zeta.
      by destruct (loader_batches tl (rng w)). }
    erewrite bind_ok by (rewrite (run_eta (train _ _ _ _)), Ho; reflexivity).
    set (w1 := final (train args tl k w)). clearbody w1.
    cbn [emitted after_events]. rewrite eval_batches_app, Hno. cbn [app].
    rewrite <- (test_eval_batches tel w1).
    destruct (outcome (test tel w1)) as [[]|e] eqn:Ho2.
    - erewrite bind_ok by (rewrite (run_eta (test _ _)), Ho2; reflexivity).
      rewrite scheduler_step_run. cbn [emitted after_events].
      rewrite eval_batches_app. cbn. apply app_nil_r.
    - erewrite bind_raise by (rewrite (run_eta (test _ _)), Ho2; reflexivity).
      done. }
  rewrite Heval. split; [|split; [|split; [|split; [|split]]]]; try done.
  - rewrite train_dry_run by (done || lia). cbv zeta.
    by destruct (loader_batches tl (rng w)).
  - rewrite train_dry_run by (done || lia). cbv zeta.
    by destruct (loader_batches tl (rng w)).
  - intros Hb. rewrite train_dry_run by (done || lia). cbv zeta. by rewrite Hb.
  - intros b rest Hb. rewrite train_dry_run by (done || lia). cbv zeta. rewrite Hb.
    eexists _, _. reflexivity.
  - apply loader_batches_perm.
Qed.

(** C4, as amended. Both loaders shuffle exactly when the accelerator is in
    use: then every iteration over the training loader and over the
    evaluation loader takes the batches of a permutation drawn from the
    generator as it stands, and moves the generator; otherwise both yield the
    batches in dataset order. The generator is seeded from [args.seed], and
    the events of a run depend on nothing else the process held. *)
Theorem C4_shuffle_follows_accelerator (args : Args) (env : Env) :
  (∀ tl, new_DataLoader (load_split (train_raw env)) (train_kwargs args env) = Ok tl →
     ld_shuffle tl = use_cuda args env ∧ dataset tl = load_split (train_raw env) ∧
     Z.pos (ld_batch_size tl) = batch_size args) ∧
  (∀ tel, new_DataLoader (load_split (test_raw env)) (test_kwargs args env) = Ok tel →
     ld_shuffle tel = use_cuda args env ∧ dataset tel = load_split (test_raw env) ∧
     Z.pos (ld_batch_size tel) = test_batch_size args) ∧
  (∀ ld w, iter_loader ld w =
     {| outcome := Ok (loader_batches ld (rng w)); final := after_iter ld w;
        emitted := [] |}) ∧
  (∀ ld w, ld_shuffle ld = false →
     loader_batches ld (rng w) = chunks (ld_batch_size ld) (dataset ld) ∧
     concat (loader_batches ld (rng w)) = dataset ld) ∧
  (∀ ld w, ld_shuffle ld = true →
     loader_batches ld (rng w) =
       chunks (ld_batch_size ld) (sample_order true (rng w) (dataset ld)).1 ∧
     concat (loader_batches ld (rng w)) ≡ₚ dataset ld ∧
     rng (after_iter ld w) = (sample_order true (rng w) (dataset ld)).2) ∧
  (∀ w1 w2, emitted (main args env w1) = emitted (main args env w2)).
Proof.
  split; [|split; [|split; [|split; [|split]]]].
  - intros tl. rewrite new_DataLoader_train.
    destruct (batch_size args); [done| |done]. by intros [= <-].
  - intros tel. rewrite new_DataLoader_test.
    destruct (test_batch_size args); [done| |done]. by intros [= <-].
  - apply iter_loader_run.
  - intros ld w Hs. split.
    + unfold loader_batches. by rewrite Hs, sample_order_sequential.
    + by apply loader_batches_ordered.
  - intros ld w Hs. split; [|split].
    + unfold loader_batches. by rewrite Hs.
    + apply loader_batches_perm.
    + unfold after_iter. by rewrite Hs.
  - intros w1 w2. apply main_blind.
Qed.
End LoaderProperties.

(** * Further properties of the passes and of the driver *)

(** ** Batches by index, and the training pass *)

Section ChunkLookup.
Context {A : Type}.


End ChunkLookup.

Section TrainFacts.
Context `{T : Torch}.
Local Open Scope Z_scope.

Lemma loader_batches_nil ld g : loader_batches ld g = [] ↔ dataset ld = [].
Proof.
  split.
  - intros Hb. pose proof (loader_batches_perm ld g) as Hp. rewrite Hb in Hp.
    cbn in Hp. symmetry in Hp. by apply Permutation_nil_r in Hp.
  - intros Hd. unfold loader_batches.
    pose proof (sample_order_perm (ld_shuffle ld) g (dataset ld)) as Hp.
    rewrite Hd in Hp |- *. apply Permutation_nil_r in Hp. by rewrite Hp.
Qed.


Lemma train_batches_cons_step (k i : Z) (b : list Sample) (l : Q) evs :
  train_batches (OptimizerStep k i b l :: evs) = (k, i, b) :: train_batches evs.
Proof. reflexivity. Qed.

Lemma train_batches_cons_line (k a b : Z) (c d : Q) evs :
  train_batches (Progress k a b c d :: evs) = train_batches evs.
Proof. reflexivity. Qed.

Lemma imap_steps_cons (k i : Z) (b : list Sample) rest :
  imap (λ j b', (k, i + Z.of_nat j, b')) (b :: rest) =
    (k, i, b) :: imap (λ j b', (k, i + 1 + Z.of_nat j, b')) rest.
Proof.
  rewrite imap_cons. f_equal; [f_equal; f_equal; lia|].
  apply imap_ext. intros j b' _. cbn. f_equal. f_equal. lia.
Qed.

(** Whatever the arguments, the optimizer steps of a training loop are taken
    on a first part of the batches, in order and with their indices; the
    model stays in training mode; and every line printed is the line of one
    of the batches. *)
Lemma train_loop_steps args ld k i batches w :
  training w = true →
  let r := train_loop args ld k i batches w in
  train_batches (emitted r) `prefix_of` imap (λ j b, (k, i + Z.of_nat j, b)) batches ∧
  training (final r) = true ∧
  Forall (λ e, is_progress e → ∃ j, progress_line_of ld k i batches e j) (emitted r).
Proof.
  revert i w. induction batches as [|b rest IH]; intros i w Htr.
  { cbn. split; [done|]. split; [done|constructor]. }
  cbv zeta. rewrite train_loop_cons by done. cbv zeta. rewrite imap_steps_cons.
  destruct (after_step_frame b w) as (Htr' & _). rewrite Htr in Htr'.
  destruct (IH (i + 1) _ Htr') as (IHp & IHt & IHl).
  assert (Forall (λ e, is_progress e → ∃ j, progress_line_of ld k i (b :: rest) e j)
            (emitted (train_loop args ld k (i + 1) rest (after_step b w).1))) as IHl'.
  { eapply Forall_impl; [exact IHl|]. intros e He Hp. destruct (He Hp) as [j Hj].
    exists j. by apply progress_line_of_cons. }
  assert (∀ loss, ∃ j, progress_line_of ld k i (b :: rest)
            (Progress k (i * len (image <$> b)) (len (dataset ld))
               (100 * inject_Z i / inject_Z (loader_len ld))%Q loss) j) as Hline.
  { intros loss. exists i. split; [lia|]. exists b, loss.
    replace (Z.to_nat (i - i)) with O by lia. split; [done|].
    unfold len. by rewrite length_fmap. }
  repeat case_match; cbn [outcome final emitted after_events app];
    rewrite ?train_batches_cons_step, ?train_batches_cons_line;
    (split; [first [by apply prefix_cons | apply prefix_cons, prefix_nil]|]);
    (split; [done|]);
    repeat (constructor; [first [by intros [] | by intros _]|]); first [done | constructor].
Qed.

Lemma loader_len_nonzero ld g : loader_batches ld g ≠ [] → loader_len ld ≠ 0.
Proof.
  intros Hb. rewrite <- (loader_batches_length ld g).
  destruct (loader_batches ld g); [done|]. unfold len. cbn. lia.
Qed.

Lemma train_mode args ld k w : training (final (train args ld k w)) = true.
Proof.
  rewrite train_run. cbn [final after_events].
  by apply train_loop_steps.
Qed.


Lemma train_loop_complete args ld k i batches w :
  training w = true → dry_run args = false → log_interval args ≠ 0 →
  loader_len ld ≠ 0 →
  train_batches (emitted (train_loop args ld k i batches w)) =
    imap (λ j b, (k, i + Z.of_nat j, b)) batches.
Proof.
  intros Htr Hdry Hli Hlen.
  destruct (train_loop_steps args ld k i batches w Htr) as (Hpre & _).
  destruct (train_loop_logging args ld k i batches w Htr Hdry Hli Hlen) as (_ & _ & Hb & _).
  apply prefix_length_eq; [done|].
  rewrite length_imap. rewrite <- Hb at 1. by rewrite length_fmap.
Qed.

(** A pass without [dry_run] and with a log interval other than 0, as a
    whole. *)
Lemma train_complete args ld k w :
  dry_run args = false → log_interval args ≠ 0 →
  let r := train args ld k w in
  let batches := loader_batches ld (rng w) in
  outcome r = Ok tt ∧
  final r = after_steps batches (after_iter ld (with_training true w)) ∧
  train_batches (emitted r) = imap (λ j b, (k, Z.of_nat j, b)) batches ∧
  Forall2 (progress_line_of ld k 0 batches) (progress_lines (emitted r))
    (logged_indices (log_interval args) 0 (length batches)).
Proof.
  intros Hdry Hli. cbv zeta. rewrite train_run.
  cbn [outcome final emitted after_events app].
  destruct (after_iter_frame ld (with_training true w)) as (_ & Htr & _).
  destruct (loader_batches ld (rng w)) as [|b rest] eqn:Hb.
  { cbn. repeat split; constructor. }
  assert (loader_len ld ≠ 0) as Hlen by (apply (loader_len_nonzero ld (rng w)); by rewrite Hb).
  destruct (train_loop_logging args ld k 0 (b :: rest) _ Htr Hdry Hli Hlen)
    as (Ho & Hf & _ & Hp).
  split; [done|]. split; [done|]. split; [|done].
  change (train_batches (TrainPass k :: ?evs)) with (train_batches evs).
  rewrite train_loop_complete by done.
  apply imap_ext. intros j b' _. cbn. do 2 f_equal. 
Qed.

Lemma imap_tagged_snd {A B} (g : nat → B → A) (l : list B) :
  (imap (λ j b, (g j b, b)) l).*2 = l.
Proof.
  revert g. induction l as [|x l IH]; intros g; [done|].
  rewrite imap_cons. cbn. f_equal. apply (IH (λ j b, g (S j) b)).
Qed.




Lemma mod_opp_zero (i li : Z) : i `mod` (- li) = 0 ↔ i `mod` li = 0.
Proof.
  split; intros H.
  - apply Z_mod_zero_opp_r in H. by rewrite Z.opp_involutive in H.
  - by apply Z_mod_zero_opp_r.
Qed.

(** The loop reads [log_interval] and [dry_run] only, and the log interval
    only up to its sign. *)
Lemma train_loop_args args args' ld k i batches w :
  training w = true → dry_run args' = dry_run args →
  log_interval args' = log_interval args ∨ log_interval args' = - log_interval args →
  train_loop args' ld k i batches w = train_loop args ld k i batches w.
Proof.
  intros Htr Hdry Hli. revert i w Htr.
  induction batches as [|b rest IH]; intros i w Htr; [done|].
  rewrite !train_loop_cons by done. cbv zeta.
  destruct (after_step_frame b w) as (Htr' & _). rewrite Htr in Htr'.
  rewrite (IH (i + 1) _ Htr'), Hdry.
  destruct Hli as [->| ->]; [done|].
  pose proof (mod_opp_zero i (log_interval args)) as Hm.
  repeat case_decide; try lia; try done; tauto.
Qed.

(** The first step of the loop overwrites the gradient buffers it finds. *)
Lemma train_loop_stale_grads args ld k i b rest g w :
  training w = true →
  train_loop args ld k i (b :: rest) (with_grads g w) =
    train_loop args ld k i (b :: rest) w.
Proof. intros Htr. by rewrite !train_loop_cons. Qed.

End TrainFacts.

Section TrainProperties.
Context `{T : Torch}.
Local Open Scope Z_scope.

(** X2. A training pass, whatever its arguments and whether it ends well or
    raises, leaves the learning rate, the scheduler's counter and the files as
    they were and the model in training mode; its optimizer steps all carry
    its epoch and the learning rate the pass was entered with, on batches of
    the loader in order, numbered from 0; it scores no evaluation batch,
    takes no schedule step and writes nothing. *)
Theorem X2_train_frame (args : Args) (ld : DataLoader) (k : Z) (w : World) :
  let r := train args ld k w in
  cur_lr (final r) = cur_lr w ∧ last_epoch (final r) = last_epoch w ∧
  files (final r) = files w ∧ training (final r) = true ∧
  (∀ k' i b l, OptimizerStep k' i b l ∈ emitted r → k' = k ∧ l = cur_lr w) ∧
  train_batches (emitted r) `prefix_of`
    imap (λ j b, (k, Z.of_nat j, b)) (loader_batches ld (rng w)) ∧
  shape (emitted r) = [PTrain k] ∧ eval_batches (emitted r) = [] ∧
  schedule_steps (emitted r) = [] ∧ saves (emitted r) = [].
Proof.
  cbv zeta.
  destruct (train_events args ld k w) as (evs & Hev & Hevs & Hlr & Hle & Hf).
  destruct (train_event_silent _ _ _ Hevs) as (Hsh & Hss & Hsv & Heb).
  split; [done|]. split; [done|]. split; [done|]. split; [apply train_mode|].
  split.
  { intros k' i b l Hin. rewrite Hev in Hin.
    apply elem_of_cons in Hin as [?|Hin]; [done|].
    rewrite Forall_forall in Hevs. exact (Hevs _ Hin). }
  split.
  { rewrite train_run. cbn [emitted after_events app].
    change (train_batches (TrainPass k :: ?l)) with (train_batches l).
    destruct (after_iter_frame ld (with_training true w)) as (_ & Htr & _).
    destruct (train_loop_steps args ld k 0 (loader_batches ld (rng w)) _ Htr) as (Hp & _).
    erewrite imap_ext; [exact Hp|]. intros j b _. cbn. do 2 f_equal. }
  rewrite Hev.
  change (shape (TrainPass k :: evs)) with (PTrain k :: shape evs).
  change (eval_batches (TrainPass k :: evs)) with (eval_batches evs).
  change (schedule_steps (TrainPass k :: evs)) with (schedule_steps evs).
  change (saves (TrainPass k :: evs)) with (saves evs).
  by rewrite Hsh, Hss, Hsv, Heb.
Qed.

(** X1. Without [dry_run] and with a log interval other than 0 a training pass
    ends well after one optimizer step on every batch of the loader, in the
    loader's order and numbered from 0: as many steps as the loader has
    batches, and every sample of the training set in exactly one of them. The
    state it leaves is the one these steps produce. *)
Theorem X1_train_visits_every_batch (args : Args) (ld : DataLoader) (k : Z) (w : World) :
  dry_run args = false → log_interval args ≠ 0 →
  let r := train args ld k w in
  let batches := loader_batches ld (rng w) in
  outcome r = Ok tt ∧
  train_batches (emitted r) = imap (λ j b, (k, Z.of_nat j, b)) batches ∧
  len (train_batches (emitted r)) = loader_len ld ∧
  concat (train_batches (emitted r)).*2 ≡ₚ dataset ld ∧
  final r = after_steps batches (after_iter ld (with_training true w)).
Proof.
  intros Hdry Hli. cbv zeta.
  destruct (train_complete args ld k w Hdry Hli) as (Ho & Hf & Hb & _).
  split; [done|]. split; [done|]. rewrite Hb. split; [|split; [|done]].
  - unfold len. rewrite length_imap. apply loader_batches_length.
  - rewrite (imap_tagged_snd (λ j _, (k, Z.of_nat j))). apply loader_batches_perm.
Qed.


(** X3. With a log interval of 0 a training pass over a non-empty training set
    raises [ZeroDivisionError] at the first [batch_idx % log_interval]: after
    the optimizer step on the first batch, which stays in force, and before
    any line is printed. Over an empty training set the loop body never runs
    and the pass ends well. *)
Theorem X3_train_log_interval_zero (args : Args) (ld : DataLoader) (k : Z) (w : World) :
  log_interval args = 0 →
  let r := train args ld k w in
  let w' := after_iter ld (with_training true w) in
  (dataset ld = [] →
     r = {| outcome := Ok tt; final := w'; emitted := [TrainPass k] |}) ∧
  (dataset ld ≠ [] →
     ∃ b rest, loader_batches ld (rng w) = b :: rest ∧
       r = {| outcome := Raise ZeroDivisionError; final := (after_step b w').1;
              emitted := [TrainPass k; OptimizerStep k 0 b (cur_lr w)] |}).
Proof.
  intros Hli. cbv zeta. rewrite train_run.
  destruct (after_iter_frame ld (with_training true w)) as (_ & Htr & _ & _ & Hlr & _).
  split.
  - intros Hd. apply (loader_batches_nil ld (rng w)) in Hd. by rewrite Hd.
  - intros Hd. destruct (loader_batches ld (rng w)) as [|b rest] eqn:Hb.
    { by apply loader_batches_nil in Hb. }
    exists b, rest. split; [done|].
    rewrite train_loop_cons by done. cbv zeta.
    destruct (decide (log_interval args = 0)); [|done].
    unfold after_events. cbn [outcome final emitted app]. by rewrite Hlr.
Qed.

(** X4. Of its arguments a training pass reads [dry_run] and [log_interval]
    only, and a negative log interval acts as its absolute value: the pass
    with [-n] is the pass with [n], in outcome, events and final state. *)
Theorem X4_train_reads_two_arguments (args args' : Args) (ld : DataLoader) (k : Z)
    (w : World) :
  dry_run args' = dry_run args →
  log_interval args' = log_interval args ∨ log_interval args' = - log_interval args →
  train args' ld k w = train args ld k w.
Proof.
  intros Hdry Hli. rewrite !train_run. f_equal.
  apply train_loop_args; done.
Qed.

(** X7. Logging only observes: two passes without [dry_run] whose log intervals
    are any two numbers other than 0 end well, take the same optimizer steps
    and leave the same state. *)
Theorem X7_train_result_independent_of_logging (args args' : Args) (ld : DataLoader)
    (k : Z) (w : World) :
  dry_run args = false → dry_run args' = false →
  log_interval args ≠ 0 → log_interval args' ≠ 0 →
  let r := train args ld k w in
  let r' := train args' ld k w in
  outcome r = Ok tt ∧ outcome r' = Ok tt ∧ final r = final r' ∧
  train_batches (emitted r) = train_batches (emitted r').
Proof.
  intros Hdry Hdry' Hli Hli'. cbv zeta.
  destruct (train_complete args ld k w Hdry Hli) as (Ho & Hf & Hb & _).
  destruct (train_complete args' ld k w Hdry' Hli') as (Ho' & Hf' & Hb' & _).
  by rewrite Ho, Ho', Hf, Hf', Hb, Hb'.
Qed.

(** X5. Without [dry_run] and with a log interval other than 0 a training pass
    prints one line per batch whose index the log interval divides, in order,
    and no other: the line of batch [j] shows [j] times the size of that
    batch, the size of the training set and [100 * j] over the number of
    batches. Batch 0 is always logged. *)
Theorem X5_train_progress_lines (args : Args) (ld : DataLoader) (k : Z) (w : World) :
  dry_run args = false → log_interval args ≠ 0 →
  let r := train args ld k w in
  let batches := loader_batches ld (rng w) in
  let logged := logged_indices (log_interval args) 0 (length batches) in
  Forall2 (progress_line_of ld k 0 batches) (progress_lines (emitted r)) logged ∧
  (∀ j, j ∈ logged ↔ 0 ≤ j < len batches ∧ (log_interval args | j)) ∧
  (dataset ld ≠ [] →
     ∃ e rest, progress_lines (emitted r) = e :: rest ∧
       progress_line_of ld k 0 batches e 0).
Proof.
  intros Hdry Hli. cbv zeta.
  destruct (train_complete args ld k w Hdry Hli) as (_ & _ & _ & Hp).
  split; [done|]. split.
  - intros j. unfold logged_indices, len. rewrite list_elem_of_filter, elem_of_seqZ.
    rewrite Z.mod_divide by done. split; intros [? ?]; (split; [done || lia|done || lia]).
  - intros Hd. destruct (loader_batches ld (rng w)) as [|b rest] eqn:Hb.
    { by apply loader_batches_nil in Hb. }
    cbn [length] in Hp. rewrite logged_indices_succ in Hp.
    rewrite Z.mod_0_l in Hp by done. destruct (decide (0 = 0)) as [_|]; [|done].
    cbn [app] in Hp. apply Forall2_cons_inv_r in Hp as (e & rest' & He & _ & ->).
    by exists e, rest'.
Qed.

(** X8. A training pass does not depend on the gradient buffers or on the mode
    flag it finds: from two states that differ in these only it has the same
    outcome and the same events, and, when the training set is not empty, it
    leaves the same state. *)
Theorem X8_train_ignores_stale_gradients (args : Args) (ld : DataLoader) (k : Z)
    (w : World) (g : Grads) (mode : bool) :
  let r := train args ld k w in
  let r' := train args ld k (with_training mode (with_grads g w)) in
  outcome r' = outcome r ∧ emitted r' = emitted r ∧
  (dataset ld ≠ [] → final r' = final r).
Proof.
  cbv zeta. rewrite !train_run.
  change (rng (with_training mode (with_grads g w))) with (rng w).
  change (after_iter ld (with_training true (with_training mode (with_grads g w))))
    with (with_grads g (after_iter ld (with_training true w))).
  destruct (after_iter_frame ld (with_training true w)) as (_ & Htr & _).
  destruct (loader_batches ld (rng w)) as [|b rest] eqn:Hb.
  { split; [done|]. split; [done|]. intros Hd. by apply loader_batches_nil in Hb. }
  by rewrite train_loop_stale_grads.
Qed.


End TrainProperties.

(** ** The evaluation pass *)

Section EvalFacts.
Context `{T : Torch}.
Local Open Scope Z_scope.

Lemma count_correct_samples p (b : list Sample) :
  count_correct (argmax <$> (predict p <$> (image <$> b))) (label <$> b) =
    correct_count p b.
Proof.
  unfold count_correct, correct_count, len. f_equal.
  induction b as [|s b IH]; [done|].
  cbn [fmap list_fmap zip zip_with]. rewrite !filter_cons. cbn [fst snd].
  case_decide; cbn [length]; by rewrite IH.
Qed.

Lemma correct_count_app p (l1 l2 : list Sample) :
  correct_count p (l1 ++ l2) = correct_count p l1 + correct_count p l2.
Proof. unfold correct_count, len. rewrite filter_app, length_app. lia. Qed.

Lemma correct_count_perm p (l1 l2 : list Sample) :
  l1 ≡ₚ l2 → correct_count p l1 = correct_count p l2.
Proof. intros Hp. unfold correct_count, len. by rewrite Hp. Qed.

Lemma eval_totals_count p batches l c :
  (eval_totals p batches l c).2 = c + correct_count p (concat batches).
Proof.
  revert l c. induction batches as [|b batches IH]; intros l c.
  - cbn. unfold correct_count, len. cbn. lia.
  - rewrite eval_totals_cons, IH, count_correct_samples. cbn [concat].
    rewrite correct_count_app. lia.
Qed.

(** The summary of an evaluation pass over a non-empty split. *)
Lemma test_summary ld w :
  dataset ld ≠ [] →
  let n := len (dataset ld) in
  let c := correct_count (params w) (dataset ld) in
  ∃ avg,
    test ld w =
      {| outcome := Ok tt; final := after_iter ld (with_training false w);
         emitted := EvalPass :: (EvalBatch <$> loader_batches ld (rng w)) ++
                    [Summary avg c n (100 * inject_Z c / inject_Z n)] |} ∧
    (avg == Qsum (sample_nll (params w) <$> dataset ld) / inject_Z n)%Q.
Proof.
  intros Hds. cbv zeta. rewrite test_run. cbv zeta.
  rewrite inject_Z_nonzero by (pose proof (len_nonempty _ Hds); lia).
  pose proof (eval_totals_total (params w) ld (rng w) 0%Q 0) as Hcum.
  pose proof (eval_totals_count (params w) (loader_batches ld (rng w)) 0%Q 0) as Hc.
  rewrite (correct_count_perm _ _ _ (loader_batches_perm ld (rng w))) in Hc.
  rewrite Z.add_0_l in Hc. rewrite Hc.
  eexists. split; [reflexivity|]. rewrite Hcum. 
  assert (¬ inject_Z (len (dataset ld)) == 0)%Q as Hn.
  { intros H. unfold Qeq, inject_Z in H. cbn in H. pose proof (len_nonempty _ Hds). lia. }
  by field.
Qed.

(** Over an empty split the pass stops at the division by the size of the
    split. *)
Lemma test_run_empty ld w :
  dataset ld = [] →
  test ld w =
    {| outcome := Raise ZeroDivisionError; final := after_iter ld (with_training false w);
       emitted := [EvalPass] |}.
Proof.
  intros Hds. rewrite test_run. cbv zeta.
  apply (loader_batches_nil ld (rng w)) in Hds as Hb. rewrite Hb, Hds. reflexivity.
Qed.

End EvalFacts.

Section EvalPassProperties.
Context `{T : Torch}.
Local Open Scope Z_scope.

(** X9. Over a non-empty split the summary of an evaluation pass is the last
    thing it prints and shows the number of samples of the split whose class
    of greatest log-probability is their label, the size of the split and
    [100] times the one over the other, whatever the batch size and the
    order of the batches. *)
Theorem X9_test_reports_correct_count (ld : DataLoader) (w : World) :
  dataset ld ≠ [] →
  let r := test ld w in
  let n := len (dataset ld) in
  let c := correct_count (params w) (dataset ld) in
  outcome r = Ok tt ∧
  (∃ avg, last (emitted r) = Some (Summary avg c n (100 * inject_Z c / inject_Z n)%Q)) ∧
  (∀ avg c' n' pct, Summary avg c' n' pct ∈ emitted r →
     c' = c ∧ n' = n ∧ pct = (100 * inject_Z c / inject_Z n)%Q).
Proof.
  intros Hds. cbv zeta. destruct (test_summary ld w Hds) as (avg & -> & _).
  cbn [outcome emitted]. split; [done|]. split.
  - exists avg. rewrite app_comm_cons. apply last_snoc.
  - intros avg' c' n' pct Hin.
    apply elem_of_cons in Hin as [?|Hin]; [done|].
    apply elem_of_app in Hin as [Hin|Hin].
    { apply list_elem_of_fmap in Hin as (? & ? & _). done. }
    apply list_elem_of_singleton in Hin. by injection Hin as -> -> -> ->.
Qed.

(** X10. What an evaluation pass reports depends on the parameters and on the
    samples of the split only: two passes over loaders that hold the same
    samples, in any order, with any batch sizes, with or without shuffling,
    from any two states with the same parameters, report the same count, the
    same size, the same percentage and the same average loss. *)
Theorem X10_test_independent_of_batching (ld1 ld2 : DataLoader) (w1 w2 : World) :
  dataset ld1 ≡ₚ dataset ld2 → params w1 = params w2 → dataset ld1 ≠ [] →
  ∃ avg1 avg2 c n pct,
    last (emitted (test ld1 w1)) = Some (Summary avg1 c n pct) ∧
    last (emitted (test ld2 w2)) = Some (Summary avg2 c n pct) ∧
    (avg1 == avg2)%Q.
Proof.
  intros Hp Hw Hds1.
  assert (dataset ld2 ≠ []) as Hds2.
  { intros H. rewrite H in Hp. by apply Permutation_nil_r in Hp. }
  destruct (test_summary ld1 w1 Hds1) as (avg1 & -> & Ha1).
  destruct (test_summary ld2 w2 Hds2) as (avg2 & -> & Ha2).
  cbn [emitted]. exists avg1, avg2. eexists _, _, _.
  split; [rewrite app_comm_cons; apply last_snoc|].
  rewrite <- Hw, <- (correct_count_perm _ _ _ Hp).
  unfold len. rewrite <- (Permutation_length Hp).
  split; [rewrite app_comm_cons; apply last_snoc|].
  rewrite Ha1, Ha2, <- Hw.
  rewrite (Qsum_perm _ _ (fmap_Permutation (sample_nll (params w1)) _ _ Hp)).
  unfold len. by rewrite (Permutation_length Hp).
Qed.

(** X11. Over an empty split an evaluation pass scores no batch and raises
    [ZeroDivisionError] at [test_loss /= len(test_loader.dataset)], before
    any summary is printed; the model is left in evaluation mode, with its
    parameters as they were. *)
Theorem X11_test_empty_split (ld : DataLoader) (w : World) :
  dataset ld = [] →
  let r := test ld w in
  outcome r = Raise ZeroDivisionError ∧ emitted r = [EvalPass] ∧
  eval_batches (emitted r) = [] ∧
  (∀ avg c n pct, Summary avg c n pct ∉ emitted r) ∧
  final r = after_iter ld (with_training false w) ∧
  training (final r) = false ∧ params (final r) = params w.
Proof.
  intros Hds. cbv zeta. rewrite test_run_empty by done.
  cbn [outcome final emitted]. split; [done|]. split; [done|]. split; [done|].
  split; [|done]. intros avg c n pct Hin. by apply list_elem_of_singleton in Hin.
Qed.

End EvalPassProperties.

(** ** Epochs that fail *)

Section EpochRuns.
Context `{T : Torch}.
Local Open Scope Z_scope.

Lemma train_ok_empty args ld k w :
  log_interval args ≠ 0 ∨ dataset ld = [] → outcome (train args ld k w) = Ok tt.
Proof.
  intros [Hli|Hd]; [by apply train_ok|].
  rewrite train_run. apply (loader_batches_nil ld (rng w)) in Hd. by rewrite Hd.
Qed.

(** An epoch whose two passes end well: its events are those of the
    training pass, those of the evaluation pass run from the state the
    training pass left, and the schedule step. *)
Lemma epoch_body_run_ok args tl tel s k w :
  log_interval args ≠ 0 ∨ dataset tl = [] → dataset tel ≠ [] →
  let w1 := final (train args tl k w) in
  let w2 := final (test tel w1) in
  epoch_body args tl tel s k w =
    {| outcome := Ok tt;
       final := with_schedule (next_lr s w2) (last_epoch w2 + 1) w2;
       emitted := emitted (train args tl k w) ++ emitted (test tel w1) ++
                  [ScheduleStep (cur_lr w2) (next_lr s w2)] |}.
Proof.
  intros Hli Hds. cbv zeta. unfold epoch_body.
  erewrite bind_ok by (rewrite (run_eta (train _ _ _ _)), train_ok_empty by done; reflexivity).
  erewrite bind_ok by (rewrite (run_eta (test _ _)), test_ok by done; reflexivity).
  rewrite scheduler_step_run. reflexivity.
Qed.

Lemma epoch_body_train_fails args tl tel s k w :
  log_interval args = 0 → dataset tl ≠ [] →
  ∃ b w', epoch_body args tl tel s k w =
    {| outcome := Raise ZeroDivisionError; final := w';
       emitted := [TrainPass k; OptimizerStep k 0 b (cur_lr w)] |} ∧ files w' = files w.
Proof.
  intros Hli Hd. unfold epoch_body.
  pose proof (train_events args tl k w) as (_ & _ & _ & _ & _ & Hf).
  revert Hf. rewrite train_run.
  destruct (after_iter_frame tl (with_training true w)) as (_ & Htr & _ & _ & Hlr & _).
  destruct (loader_batches tl (rng w)) as [|b rest] eqn:Hb.
  { by apply loader_batches_nil in Hb. }
  rewrite train_loop_cons by done. cbv zeta.
  destruct (decide (log_interval args = 0)); [|done].
  cbn [final after_events]. intros Hf.
  exists b. eexists. split; [|exact Hf].
  erewrite bind_raise; [reflexivity|].
  rewrite train_run, Hb, train_loop_cons by done. cbv zeta.
  destruct (decide (log_interval args = 0)); [|done].
  unfold after_events. cbn [outcome final emitted app]. by rewrite Hlr.
Qed.

Lemma epoch_body_test_fails args tl tel s k w :
  log_interval args ≠ 0 ∨ dataset tl = [] → dataset tel = [] →
  ∃ evs w', epoch_body args tl tel s k w =
    {| outcome := Raise ZeroDivisionError; final := w';
       emitted := TrainPass k :: evs ++ [EvalPass] |} ∧
    Forall (train_event k (cur_lr w)) evs ∧ files w' = files w.
Proof.
  intros Hli Hd. unfold epoch_body.
  destruct (train_events args tl k w) as (evs & Hev & Hevs & _ & _ & Hf).
  erewrite bind_ok by (rewrite (run_eta (train _ _ _ _)), train_ok_empty by done; reflexivity).
  erewrite bind_raise by (rewrite test_run_empty by done; reflexivity).
  unfold after_events. cbn [outcome final emitted]. rewrite Hev.
  exists evs. eexists. split; [reflexivity|]. split; [done|].
  exact Hf.
Qed.

End EpochRuns.

Section DriverRuns.
Context `{T : Torch}.
Local Open Scope Z_scope.

Lemma epoch_body_ok_empty args tl tel s k w :
  log_interval args ≠ 0 ∨ dataset tl = [] → dataset tel ≠ [] →
  outcome (epoch_body args tl tel s k w) = Ok tt.
Proof. intros Hli Hds. by rewrite epoch_body_run_ok. Qed.

Lemma run_epochs_first args tl tel s w :
  1 ≤ epochs args →
  run_epochs args tl tel s w =
    (epoch_body args tl tel s 1 ≫= λ _,
       for_each (seqZ 2 (epochs args - 1)) (epoch_body args tl tel s)) w.
Proof.
  intros HE. rewrite run_epochs_for_each.
  destruct (Z.to_nat (epochs args)) as [|n] eqn:Hn; [lia|].
  rewrite seqZ_succ. cbn [for_each].
  replace (epochs args - 1) with (Z.of_nat n) by lia. reflexivity.
Qed.

(** A driver whose first epoch raises: the error, the state and the events
    are those of that epoch. *)
Lemma driver_first_epoch_fails args tl tel s w e w' evs :
  1 ≤ epochs args →
  epoch_body args tl tel s 1 w = {| outcome := Raise e; final := w'; emitted := evs |} →
  driver args tl tel s w = {| outcome := Raise e; final := w'; emitted := evs |}.
Proof.
  intros HE Hbody. rewrite driver_run. cbv zeta.
  rewrite run_epochs_first by done.
  erewrite bind_raise by exact Hbody. reflexivity.
Qed.

Lemma driver_ok_empty args tl tel s w :
  log_interval args ≠ 0 ∨ dataset tl = [] → dataset tel ≠ [] →
  outcome (driver args tl tel s w) = Ok tt.
Proof.
  intros Hli Hds. destruct (driver_emitted args tl tel s w) as [-> _].
  apply for_each_ok. intros k w'. by apply epoch_body_ok_empty.
Qed.

End DriverRuns.

Section FailureProperties.
Context `{T : Torch}.
Local Open Scope Z_scope.

(** X16. The epoch loop and the save end well unless there is at least one epoch
    and either the log interval is 0 over a non-empty training set or the
    evaluation split is empty. In these cases the run raises
    [ZeroDivisionError] in its first epoch: in the training pass, after one
    optimizer step, in the first case, and otherwise in the evaluation pass;
    no schedule step is taken, nothing is saved and the files are as they
    were. *)
Theorem X16_driver_fails_in_first_epoch (args : Args) (tl tel : DataLoader) (s : StepLR)
    (w : World) :
  let r := driver args tl tel s w in
  let train_fails := log_interval args = 0 ∧ dataset tl ≠ [] in
  let fails := 1 ≤ epochs args ∧ (train_fails ∨ dataset tel = []) in
  (outcome r = Ok tt ↔ ¬ fails) ∧
  (∀ e, outcome r = Raise e → e = ZeroDivisionError ∧ fails) ∧
  (fails →
     outcome r = Raise ZeroDivisionError ∧ schedule_steps (emitted r) = [] ∧
     saves (emitted r) = [] ∧ files (final r) = files w ∧
     (train_fails →
        shape (emitted r) = [PTrain 1] ∧ length (train_batches (emitted r)) = 1%nat) ∧
     (¬ train_fails → shape (emitted r) = [PTrain 1; PEval])).
Proof.
  cbv zeta.
  assert (1 ≤ epochs args ∧
          (log_interval args = 0 ∧ dataset tl ≠ [] ∨ dataset tel = []) →
          outcome (driver args tl tel s w) = Raise ZeroDivisionError ∧
          schedule_steps (emitted (driver args tl tel s w)) = [] ∧
          saves (emitted (driver args tl tel s w)) = [] ∧
          files (final (driver args tl tel s w)) = files w ∧
          (log_interval args = 0 ∧ dataset tl ≠ [] →
             shape (emitted (driver args tl tel s w)) = [PTrain 1] ∧
             length (train_batches (emitted (driver args tl tel s w))) = 1%nat) ∧
          (¬ (log_interval args = 0 ∧ dataset tl ≠ []) →
             shape (emitted (driver args tl tel s w)) = [PTrain 1; PEval])) as Hfails.
  { intros [HE Hbad].
    assert (log_interval args = 0 ∧ dataset tl ≠ [] ∨
            (log_interval args ≠ 0 ∨ dataset tl = []) ∧ dataset tel = []) as [[Hli Hd]|[Hli Hd]].
    { destruct (decide (log_interval args = 0)) as [Hli|Hli], (dataset tl) eqn:Hd;
        destruct Hbad as [[? ?]|?]; try done; auto. }
    - destruct (epoch_body_train_fails args tl tel s 1 w Hli Hd) as (b & w' & Hbody & Hf).
      rewrite (driver_first_epoch_fails _ _ _ _ _ _ _ _ HE Hbody).
      cbn [outcome final emitted].
      split; [done|]. split; [done|]. split; [done|]. split; [done|].
      split; [done|]. by intros [].
    - destruct (epoch_body_test_fails args tl tel s 1 w Hli Hd)
        as (evs & w' & Hbody & Hevs & Hf).
      rewrite (driver_first_epoch_fails _ _ _ _ _ _ _ _ HE Hbody).
      cbn [outcome final emitted].
      destruct (train_event_silent _ _ _ Hevs) as (Hsh & Hss & Hsv & _).
      read_events. rewrite Hsh, Hss, Hsv.
      split; [done|]. split; [done|]. split; [done|]. split; [done|].
      split; [|done]. intros [? ?]. destruct Hli; done. }
  assert (¬ (1 ≤ epochs args ∧
             (log_interval args = 0 ∧ dataset tl ≠ [] ∨ dataset tel = [])) →
          outcome (driver args tl tel s w) = Ok tt) as Hok.
  { intros Hnot. destruct (decide (1 ≤ epochs args)) as [HE|HE].
    - apply driver_ok_empty.
      + destruct (decide (log_interval args = 0)) as [Hli|Hli]; [|by left].
        right. destruct (dataset tl) eqn:Hd; [done|]. exfalso. apply Hnot.
        split; [done|]. left. done.
      + intros Hd. apply Hnot. auto.
    - rewrite driver_none by lia. by destruct (save_model args). }
  assert (Decision (1 ≤ epochs args ∧
             (log_interval args = 0 ∧ dataset tl ≠ [] ∨ dataset tel = []))) as Hdec.
  { destruct (dataset tl), (dataset tel); apply _ || (right; naive_solver) ||
      (destruct (decide (1 ≤ epochs args)); [left|right]; naive_solver) || idtac. }
  split; [|split; [|done]].
  - split.
    + intros Ho Hbad. apply Hfails in Hbad as [Hr _]. congruence.
    + exact Hok.
  - intros e He. destruct Hdec as [Hbad|Hgood].
    + split; [|done]. apply Hfails in Hbad as [Hr _]. congruence.
    + apply Hok in Hgood. congruence.
Qed.

End FailureProperties.

(** ** The work of a run *)

Section CountFacts.
Context `{T : Torch}.
Local Open Scope Z_scope.

Lemma for_each_app {A} (l1 l2 : list A) (body : A → M unit) w :
  for_each (l1 ++ l2) body w = (for_each l1 body ≫= λ _, for_each l2 body) w.
Proof.
  revert w. induction l1 as [|x l1 IH]; intros w.
  - cbn [app for_each]. erewrite bind_ok by apply ret_run. by rewrite after_events_nil.
  - cbn [app for_each]. unfold mbind, M_bind, bind in *. cbn.
    destruct (outcome (body x w)); [|done]. rewrite IH.
    destruct (outcome (for_each l1 body (final (body x w)))); cbn; [|done].
    by rewrite app_assoc.
Qed.

(** When every round of a loop ends well and contributes [c] items to a
    projection of the events, the loop contributes [c] items per round. *)
Lemma for_each_length {A B} (f : list Event → list B) (l : list A) (body : A → M unit)
    (c : nat) :
  f [] = [] → (∀ evs1 evs2, f (evs1 ++ evs2) = f evs1 ++ f evs2) →
  (∀ x w, outcome (body x w) = Ok tt ∧ length (f (emitted (body x w))) = c) →
  ∀ w, length (f (emitted (for_each l body w))) = (length l * c)%nat.
Proof.
  intros Hnil Happ Hbody. induction l as [|x l IH]; intros w.
  - cbn. by rewrite Hnil.
  - cbn [for_each]. destruct (Hbody x w) as [Ho Hc].
    erewrite bind_ok by (rewrite (run_eta (body _ _)), Ho; reflexivity).
    cbn [emitted after_events]. rewrite Happ, length_app, Hc, IH. cbn. lia.
Qed.

Lemma train_steps_count args ld k w :
  log_interval args ≠ 0 →
  len (train_batches (emitted (train args ld k w))) =
    if dry_run args then Z.min 1 (loader_len ld) else loader_len ld.
Proof.
  intros Hli. rewrite <- (loader_batches_length ld (rng w)).
  destruct (dry_run args) eqn:Hdry.
  - rewrite train_dry_run by done. cbv zeta.
    destruct (loader_batches ld (rng w)); unfold len; cbn; lia.
  - destruct (train_complete args ld k w Hdry Hli) as (_ & _ & -> & _).
    unfold len. by rewrite length_imap.
Qed.

Lemma epoch_body_counts args tl tel s k w :
  log_interval args ≠ 0 → dataset tel ≠ [] →
  let r := epoch_body args tl tel s k w in
  len (train_batches (emitted r)) =
    (if dry_run args then Z.min 1 (loader_len tl) else loader_len tl) ∧
  len (eval_batches (emitted r)) = loader_len tel.
Proof.
  intros Hli Hds. cbv zeta. rewrite epoch_body_run_ok by auto. cbn [emitted].
  destruct (train_events args tl k w) as (evs & Hev & Hevs & _).
  destruct (train_event_silent _ _ _ Hevs) as (_ & _ & _ & Heb).
  destruct (test_events tel (final (train args tl k w))) as (evs' & Hev' & Hevs' & _).
  destruct (eval_event_silent _ Hevs') as (_ & _ & _ & Htb).
  rewrite !train_batches_app, !eval_batches_app.
  split.
  - rewrite Hev'. change (train_batches (EvalPass :: evs')) with (train_batches evs').
    rewrite Htb. cbn [app]. rewrite app_nil_r. by apply train_steps_count.
  - rewrite test_eval_batches, Hev.
    change (eval_batches (TrainPass k :: evs)) with (eval_batches evs).
    rewrite Heb. cbn [app]. rewrite app_nil_r. apply loader_batches_length.
Qed.

End CountFacts.

Section CountProperties.
Context `{T : Torch}.
Local Open Scope Z_scope.

(** X17. The work of a complete run. With a log interval other than 0 and a
    non-empty evaluation split the driver ends well, having taken one
    optimizer step per training batch in each epoch (or, under [dry_run], one
    per epoch, if the training set has a batch at all) and scored every
    evaluation batch in each epoch. *)
Theorem X17_run_step_counts (args : Args) (tl tel : DataLoader) (s : StepLR) (w : World) :
  log_interval args ≠ 0 → dataset tel ≠ [] →
  let r := driver args tl tel s w in
  let E := Z.max 0 (epochs args) in
  outcome r = Ok tt ∧
  len (train_batches (emitted r)) =
    E * (if dry_run args then Z.min 1 (loader_len tl) else loader_len tl) ∧
  len (eval_batches (emitted r)) = E * loader_len tel.
Proof.
  intros Hli Hds. cbv zeta. split; [by apply driver_ok|].
  destruct (driver_emitted args tl tel s w) as (_ & extra & -> & Hextra).
  rewrite train_batches_app, eval_batches_app.
  assert (train_batches extra = [] ∧ eval_batches extra = []) as [-> ->].
  { by destruct Hextra as [(-> & _)|(-> & _)]. }
  rewrite !app_nil_r, run_epochs_for_each. unfold len.
  pose proof (length_seqZ 1 (Z.of_nat (Z.to_nat (epochs args)))) as Hlen.
  split.
  - rewrite (for_each_length train_batches _ _
               (Z.to_nat (if dry_run args then Z.min 1 (loader_len tl) else loader_len tl)));
      [| done | apply train_batches_app |].
    + rewrite Hlen.
      assert (0 ≤ loader_len tl).
      { rewrite <- (loader_batches_length tl (rng w)). unfold len. lia. }
      destruct (dry_run args); nia.
    + intros k w'. split; [by apply epoch_body_ok|].
      destruct (epoch_body_counts args tl tel s k w' Hli Hds) as [Hc _].
      unfold len in Hc. rewrite <- Hc. lia.
  - rewrite (for_each_length eval_batches _ _ (Z.to_nat (loader_len tel)));
      [| done | apply eval_batches_app |].
    + rewrite Hlen.
      assert (0 ≤ loader_len tel).
      { rewrite <- (loader_batches_length tel (rng w)). unfold len. lia. }
      nia.
    + intros k w'. split; [by apply epoch_body_ok|].
      destruct (epoch_body_counts args tl tel s k w' Hli Hds) as [_ Hc].
      unfold len in Hc. rewrite <- Hc. lia.
Qed.

End CountProperties.

(** ** The learning rates of a run *)

Section RateFacts.
Context `{T : Torch}.
Local Open Scope Z_scope.

Lemma lr_of_epoch_first args : lr_of_epoch args 1 = lr args.
Proof. reflexivity. Qed.

Lemma lr_of_epoch_nonneg args k :
  (0 <= lr args)%Q → (0 <= gamma args)%Q → (0 <= lr_of_epoch args k)%Q.
Proof.
  intros Hlr Hg. unfold lr_of_epoch. generalize (Z.to_nat (k - 1)). intros n.
  induction n as [|n IH]; unfold Nat.iter in *; cbn [nat_rect]; [done|].
  by apply Qmult_le_0_compat.
Qed.

Lemma lr_of_epoch_decreasing args k k' :
  (0 <= lr args)%Q → (0 <= gamma args <= 1)%Q → 1 ≤ k ≤ k' →
  (lr_of_epoch args k' <= lr_of_epoch args k)%Q.
Proof.
  intros Hlr Hg [Hk Hkk'].
  replace k' with (k + Z.of_nat (Z.to_nat (k' - k))) by lia.
  generalize (Z.to_nat (k' - k)). intros n. induction n as [|n IH].
  - rewrite Z.add_0_r. apply Qle_refl.
  - replace (k + Z.of_nat (S n)) with (k + Z.of_nat n + 1) by lia.
    rewrite lr_of_epoch_succ by lia.
    pose proof (lr_of_epoch_nonneg args (k + Z.of_nat n) Hlr (proj1 Hg)) as H0.
    destruct Hg as [Hg0 Hg1].
    assert (lr_of_epoch args (k + Z.of_nat n) * gamma args <=
            lr_of_epoch args (k + Z.of_nat n) * 1)%Q as Hle.
    { rewrite !(Qmult_comm (lr_of_epoch args (k + Z.of_nat n))).
      by apply Qmult_le_compat_r. }
    rewrite Qmult_1_r in Hle. eapply Qle_trans; [exact Hle|exact IH].
Qed.

(** The learning rates of a run of the driver entered as [main] enters it:
    those of the optimizer steps and those around the schedule steps. *)
Lemma driver_rates args tl tel w :
  cur_lr w = lr args → last_epoch w = 0 →
  let r := driver args tl tel (scheduler_of args) w in
  (∀ k i b l, OptimizerStep k i b l ∈ emitted r → 1 ≤ k ∧ l = lr_of_epoch args k) ∧
  (∀ j a b, schedule_steps (emitted r) !! j = Some (a, b) →
     a = lr_of_epoch args (1 + Z.of_nat j) ∧ b = lr_of_epoch args (1 + Z.of_nat j + 1)).
Proof.
  intros Hlr Hle. cbv zeta.
  destruct (driver_emitted args tl tel (scheduler_of args) w) as (_ & extra & -> & Hextra).
  rewrite run_epochs_for_each.
  destruct (epochs_run_lr args tl tel (Z.to_nat (epochs args)) 1 w)
    as (Hsteps & Hsched & _); [lia|done|lia|].
  set (re := for_each _ _ w) in *. clearbody re.
  split.
  - intros k i b l Hin. apply elem_of_app in Hin as [Hin|Hin].
    2:{ destruct Hextra as [(-> & _)|(-> & _)].
        - by apply list_elem_of_singleton in Hin.
        - by apply elem_of_nil in Hin. }
    rewrite Forall_forall in Hsteps. specialize (Hsteps _ Hin) as [Hk ->].
    split; [lia|done].
  - intros j a b Hj.
    assert (schedule_steps (emitted re ++ extra) = schedule_steps (emitted re)) as Hss.
    { unfold schedule_steps. rewrite omap_app.
      destruct Hextra as [(-> & _)|(-> & _)]; cbn; by rewrite app_nil_r. }
    rewrite Hss in Hj.
    pose proof (prefix_lookup_Some _ _ _ _ Hj Hsched) as Hj'.
    rewrite list_lookup_fmap in Hj'.
    destruct (seqZ 1 (Z.of_nat (Z.to_nat (epochs args))) !! j) as [k|] eqn:Hk; [|done].
    apply lookup_seqZ in Hk as [-> _]. cbn in Hj'. unfold schedule_of_epoch in Hj'.
    by simplify_eq.
Qed.

Lemma epochs_run_final args tl tel (n : nat) k w :
  1 ≤ k → cur_lr w = lr_of_epoch args k → last_epoch w = k - 1 →
  let r := for_each (seqZ k (Z.of_nat n)) (epoch_body args tl tel (scheduler_of args)) w in
  outcome r = Ok tt →
  cur_lr (final r) = lr_of_epoch args (k + Z.of_nat n) ∧
  last_epoch (final r) = k - 1 + Z.of_nat n.
Proof.
  revert k w. induction n as [|n IH]; intros k w Hk Hlr Hle.
  { cbn [for_each seqZ]. change (Z.of_nat 0) with 0. rewrite !Z.add_0_r.
    intros _. split; [done|done]. }
  cbv zeta. rewrite seqZ_succ. cbn [for_each].
  destruct (epoch_body_cases args tl tel (scheduler_of args) k w)
    as (_ & evs_tr & _ & Hcases).
  destruct Hcases as [(e & Ho & _)|[(e & evs_ev & Ho & _)|
                      (evs_ev & Ho & _ & _ & Hlr' & Hle')]].
  - erewrite bind_raise by (rewrite (run_eta (epoch_body _ _ _ _ _ _)), Ho; reflexivity).
    done.
  - erewrite bind_raise by (rewrite (run_eta (epoch_body _ _ _ _ _ _)), Ho; reflexivity).
    done.
  - erewrite bind_ok by (rewrite (run_eta (epoch_body _ _ _ _ _ _)), Ho; reflexivity).
    cbn [outcome final after_events]. intros Hok.
    rewrite next_lr_step in Hlr' by lia. rewrite Hlr, <- lr_of_epoch_succ in Hlr' by lia.
    destruct (IH (k + 1) _ ltac:(lia) Hlr' ltac:(lia) Hok) as [-> ->].
    split; [f_equal; lia|lia].
Qed.

End RateFacts.

Section RateProperties.
Context `{T : Torch}.
Local Open Scope Z_scope.

(** X18. A run of the program that ends well leaves the optimizer with the
    learning rate [lr * gamma ^ E] and the scheduler's counter at [E], where
    [E] is the number of epochs (0 if [epochs] is negative). *)
Theorem X18_run_final_schedule (args : Args) (env : Env) (w : World) :
  outcome (main args env w) = Ok tt →
  let r := main args env w in
  let E := Z.max 0 (epochs args) in
  (cur_lr (final r) == lr args * gamma args ^ E)%Q ∧ last_epoch (final r) = E.
Proof.
  cbv zeta. rewrite main_run. cbv zeta.
  destruct (new_DataLoader _ (train_kwargs args env)) as [tl|e]; [|done].
  destruct (new_DataLoader _ (test_kwargs args env)) as [tel|e]; [|done].
  destruct (Qle_bool 0 (lr args)); [|done].
  rewrite driver_run. cbv zeta. rewrite run_epochs_for_each.
  pose proof (epochs_run_final args tl tel (Z.to_nat (epochs args)) 1 (fresh_world args w)
                ltac:(lia) eq_refl eq_refl) as Hfin. cbv zeta in Hfin.
  destruct (outcome (for_each _ _ (fresh_world args w))) as [[]|e] eqn:Ho; [|done].
  destruct (Hfin eq_refl) as [Hlr Hle]. intros _.
  assert (1 + Z.of_nat (Z.to_nat (epochs args)) - 1 = Z.max 0 (epochs args)) as HE by lia.
  destruct (save_model args); cbn [final cur_lr last_epoch with_files];
    rewrite Hlr, Hle, lr_of_epoch_closed, HE by lia; (split; [reflexivity|lia]).
Qed.

(** X19. With [0 <= gamma <= 1] the learning rate never goes up and never leaves
    the interval from 0 to [lr]: every schedule step replaces a rate by one
    that is at most as large, every optimizer step runs at a rate between 0
    and [lr], and of two optimizer steps the one of the later epoch runs at
    a rate at most that of the other. *)
Theorem X19_learning_rate_never_increases (args : Args) (env : Env) (w : World) :
  (0 <= gamma args <= 1)%Q →
  let r := main args env w in
  (∀ j a b, schedule_steps (emitted r) !! j = Some (a, b) →
     (0 <= b)%Q ∧ (b <= a)%Q ∧ (a <= lr args)%Q) ∧
  (∀ k i b l, OptimizerStep k i b l ∈ emitted r → (0 <= l)%Q ∧ (l <= lr args)%Q) ∧
  (∀ k i b l k' i' b' l',
     OptimizerStep k i b l ∈ emitted r → OptimizerStep k' i' b' l' ∈ emitted r →
     k ≤ k' → (l' <= l)%Q).
Proof.
  intros Hg. cbv zeta. rewrite main_run. cbv zeta.
  destruct (new_DataLoader _ (train_kwargs args env)) as [tl|e].
  2:{ cbn [emitted]. split; [done|].
      split; [by intros ? ? ? ? ?%elem_of_nil|by intros ? ? ? ? ? ? ? ? ?%elem_of_nil]. }
  destruct (new_DataLoader _ (test_kwargs args env)) as [tel|e].
  2:{ cbn [emitted]. split; [done|].
      split; [by intros ? ? ? ? ?%elem_of_nil|by intros ? ? ? ? ? ? ? ? ?%elem_of_nil]. }
  destruct (Qle_bool 0 (lr args)) eqn:Hlr.
  2:{ cbn [emitted]. split; [done|].
      split; [by intros ? ? ? ? ?%elem_of_nil|by intros ? ? ? ? ? ? ? ? ?%elem_of_nil]. }
  apply Qle_bool_iff in Hlr.
  destruct (driver_rates args tl tel (fresh_world args w) eq_refl eq_refl) as [Hsteps Hsched].
  split; [|split].
  - intros j a b Hj. destruct (Hsched j a b Hj) as [-> ->].
    split; [apply lr_of_epoch_nonneg; tauto|].
    split; [apply lr_of_epoch_decreasing; (done || lia)|].
    change (lr args) with (lr_of_epoch args 1).
    apply lr_of_epoch_decreasing; (done || lia).
  - intros k i b l Hin. destruct (Hsteps k i b l Hin) as [Hk ->].
    split; [apply lr_of_epoch_nonneg; tauto|].
    change (lr args) with (lr_of_epoch args 1).
    apply lr_of_epoch_decreasing; (done || lia).
  - intros k i b l k' i' b' l' Hin Hin' Hkk'.
    destruct (Hsteps k i b l Hin) as [Hk ->].
    destruct (Hsteps k' i' b' l' Hin') as [Hk' ->].
    apply lr_of_epoch_decreasing; (done || lia).
Qed.

End RateProperties.

(** ** Errors, options and the transform *)

Section ErrorFacts.
Context `{T : Torch}.
Local Open Scope Z_scope.

Lemma epoch_body_error args tl tel s k w e :
  outcome (epoch_body args tl tel s k w) = Raise e → e = ZeroDivisionError.
Proof.
  destruct (decide (log_interval args = 0)) as [Hli|Hli].
  - destruct (dataset tl) eqn:Hd.
    + destruct (dataset tel) eqn:Hd'.
      * destruct (epoch_body_test_fails args tl tel s k w (or_intror Hd) Hd')
          as (? & ? & -> & _). by intros [= <-].
      * rewrite epoch_body_ok_empty; [done|by right|by rewrite Hd'].
    + destruct (epoch_body_train_fails args tl tel s k w Hli) as (? & ? & -> & _).
      { by rewrite Hd. }
      by intros [= <-].
  - destruct (dataset tel) eqn:Hd'.
    + destruct (epoch_body_test_fails args tl tel s k w (or_introl Hli) Hd')
        as (? & ? & -> & _). by intros [= <-].
    + rewrite epoch_body_ok_empty; [done|by left|by rewrite Hd'].
Qed.

Lemma for_each_error {A} (l : list A) (body : A → M unit) (e0 : Error) w e :
  (∀ x w' e', outcome (body x w') = Raise e' → e' = e0) →
  outcome (for_each l body w) = Raise e → e = e0.
Proof.
  intros Hbody. revert w. induction l as [|x l IH]; intros w; [done|].
  cbn [for_each]. destruct (outcome (body x w)) as [[]|e'] eqn:Ho.
  - erewrite bind_ok by (rewrite (run_eta (body _ _)), Ho; reflexivity).
    cbn [outcome after_events]. apply IH.
  - erewrite bind_raise by (rewrite (run_eta (body _ _)), Ho; reflexivity).
    cbn [outcome]. intros [= <-]. by eapply Hbody.
Qed.

(** The only error of the epoch loop and the save is a division by zero. *)
Lemma driver_error args tl tel s w e :
  outcome (driver args tl tel s w) = Raise e → e = ZeroDivisionError.
Proof.
  destruct (driver_emitted args tl tel s w) as [-> _]. unfold run_epochs.
  apply for_each_error. intros k w' e'. apply epoch_body_error.
Qed.

End ErrorFacts.

Section SetupProperties.
Context `{T : Torch}.
Local Open Scope Z_scope.

(** X15. The program raises [ValueError] exactly when a batch size is not
    positive or the learning rate is negative, and then before the first
    epoch: it prints nothing, takes no step and writes nothing. A batch size
    is refused when the loaders are built, with only the generator seeded;
    the learning rate is refused when the optimizer is built, after the
    model. *)
Theorem X15_main_rejects_invalid_configuration (args : Args) (env : Env) (w : World) :
  let r := main args env w in
  let w0 := with_rng (manual_seed (seed args)) w in
  ((∃ msg, outcome r = Raise (ValueError msg)) ↔
     batch_size args ≤ 0 ∨ test_batch_size args ≤ 0 ∨ (lr args < 0)%Q) ∧
  (batch_size args ≤ 0 ∨ test_batch_size args ≤ 0 →
     r = {| outcome := Raise (ValueError "batch_size should be a positive integer value");
            final := w0; emitted := [] |}) ∧
  (0 < batch_size args → 0 < test_batch_size args → (lr args < 0)%Q →
     r = {| outcome := Raise (ValueError "Invalid learning rate");
            final := final (new_model w0); emitted := [] |}).
Proof.
  cbv zeta. rewrite main_run, new_DataLoader_train, new_DataLoader_test. cbv zeta.
  assert (Qle_bool 0 (lr args) = false ↔ (lr args < 0)%Q) as Hlr.
  { destruct (Qle_bool 0 (lr args)) eqn:Hb.
    - apply Qle_bool_iff in Hb. split; [done|]. intros Hlt.
      exfalso. exact (Qlt_not_le _ _ Hlt Hb).
    - split; [|done]. intros _. apply Qnot_le_lt. intros Hle.
      apply Qle_bool_iff in Hle. congruence. }
  destruct (batch_size args) as [|p|p].
  { split; [split; [intros _; left; lia|eauto]|]. split; [done|lia]. }
  2:{ split; [split; [intros _; left; lia|eauto]|]. split; [done|lia]. }
  destruct (test_batch_size args) as [|q|q].
  { split; [split; [intros _; right; left; lia|eauto]|]. split; [done|lia]. }
  2:{ split; [split; [intros _; right; left; lia|eauto]|]. split; [done|lia]. }
  destruct (Qle_bool 0 (lr args)) eqn:Hb.
  - split; [|split].
    + split.
      * intros [msg Hm]. by apply driver_error in Hm.
      * intros [?|[?|Hlt]]; [lia|lia|]. apply Hlr in Hlt. congruence.
    + intros [?|?]; lia.
    + intros _ _ Hlt. apply Hlr in Hlt. congruence.
  - split; [|split].
    + split; [|eauto]. intros _. right. right. by apply Hlr.
    + intros [?|?]; lia.
    + done.
Qed.

(** X14. With [--no-cuda] the accelerator plays no part: the loaders do not
    shuffle, and the run is the same whether or not an accelerator is
    there. *)
Theorem X14_no_cuda_ignores_accelerator (args : Args) (env env' : Env) (w : World) :
  no_cuda args = true →
  train_raw env' = train_raw env → test_raw env' = test_raw env →
  use_cuda args env = false ∧
  train_kwargs args env = {[ "batch_size" := VInt (batch_size args) ]} ∧
  test_kwargs args env = {[ "batch_size" := VInt (test_batch_size args) ]} ∧
  main args env' w = main args env w.
Proof.
  intros Hno Htr Hte.
  assert (∀ e, use_cuda args e = false) as Hu.
  { intros e. unfold use_cuda. by rewrite Hno. }
  split; [done|].
  unfold main, train_kwargs, test_kwargs. rewrite !Hu, Htr, Hte. done.
Qed.

(** X13. The options of the two loaders. The accelerator's options never replace
    a batch size; apart from the batch size the two loaders get the same
    options, which are those of [cuda_kwargs] when the accelerator is in use
    and none otherwise. *)
Theorem X13_loader_options (args : Args) (env : Env) :
  train_kwargs args env !! "batch_size" = Some (VInt (batch_size args)) ∧
  test_kwargs args env !! "batch_size" = Some (VInt (test_batch_size args)) ∧
  (∀ key, key ≠ "batch_size" →
     train_kwargs args env !! key = test_kwargs args env !! key ∧
     train_kwargs args env !! key =
       if use_cuda args env then cuda_kwargs !! key else None) ∧
  dom (train_kwargs args env) = dom (test_kwargs args env) ∧
  (use_cuda args env = true ↔ no_cuda args = false ∧ cuda_available env = true).
Proof.
  split; [apply kwargs_batch_size_train|]. split; [apply kwargs_batch_size_test|].
  split; [|split].
  - intros key Hkey. unfold train_kwargs, test_kwargs, dict_update.
    assert (∀ v : Value, ({[ "batch_size" := v ]} : gmap string Value) !! key = None) as Hne.
    { intros v. apply lookup_singleton_ne. congruence. }
    destruct (use_cuda args env).
    + rewrite !lookup_union, !Hne. by destruct (cuda_kwargs !! key).
    + by rewrite !Hne.
  - unfold train_kwargs, test_kwargs, dict_update.
    destruct (use_cuda args env); by rewrite ?dom_union_L, !dom_singleton_L.
  - unfold use_cuda. destruct (no_cuda args), (cuda_available env); cbn;
      (split; [done || by intros [? ?]|done || by intros [? ?]]).
Qed.

End SetupProperties.

Section TransformProperties.
Local Open Scope Z_scope.

(** X12. The transform of the datasets. A pixel byte [b] becomes
    [(b / 255 - 0.1307) / 0.3081]; the image keeps its number of pixels, a
    brighter pixel stays brighter, and the bytes 0..255 land between
    [-1307/3081] and [8693/3081]. Loading a split keeps the samples' order
    and labels. *)
Theorem X12_transform_range (raw : list Z) :
  length (transform raw) = length raw ∧
  (∀ i b, raw !! i = Some b →
     transform raw !! i = Some ((inject_Z b / 255 - (1307 # 10000)) / (3081 # 10000))%Q) ∧
  (∀ i j b b' v v', raw !! i = Some b → raw !! j = Some b' →
     transform raw !! i = Some v → transform raw !! j = Some v' →
     b ≤ b' → (v <= v')%Q) ∧
  (Forall (λ b, 0 ≤ b ≤ 255) raw →
     Forall (λ v, (- (1307 # 3081) <= v)%Q ∧ (v <= 8693 # 3081)%Q) (transform raw)) ∧
  (∀ split : list (list Z * Label),
     label <$> load_split split = split.*2 ∧
     image <$> load_split split = transform <$> split.*1).
Proof.
  assert (∀ i b, raw !! i = Some b →
            transform raw !! i =
              Some ((inject_Z b / 255 - (1307 # 10000)) / (3081 # 10000))%Q) as Hlook.
  { intros i b Hb. unfold transform, Normalize, ToTensor, Image.
    by rewrite !list_lookup_fmap, Hb. }
  assert (∀ b b', b ≤ b' →
            ((inject_Z b / 255 - (1307 # 10000)) / (3081 # 10000) <=
             (inject_Z b' / 255 - (1307 # 10000)) / (3081 # 10000))%Q) as Hmono.
  { intros b b' Hbb'. rewrite Zle_Qle in Hbb'.
    unfold Qdiv. apply Qmult_le_compat_r; [|done].
    change (/ 255)%Q with (1 # 255)%Q. lra. }
  split; [|split; [done|split; [|split]]].
  - unfold transform, Normalize, ToTensor. by rewrite !length_fmap.
  - intros i j b b' v v' Hb Hb' Hv Hv' Hbb'.
    rewrite (Hlook _ _ Hb) in Hv. rewrite (Hlook _ _ Hb') in Hv'. simplify_eq.
    by apply Hmono.
  - intros Hraw. apply Forall_lookup. intros i v Hv.
    assert (is_Some (raw !! i)) as [b Hb].
    { apply lookup_lt_is_Some. apply lookup_lt_Some in Hv.
      unfold transform, Normalize, ToTensor in Hv. by rewrite !length_fmap in Hv. }
    assert (Some v = Some ((inject_Z b / 255 - (1307 # 10000)) / (3081 # 10000))%Q)
      as [= ->] by (etrans; [symmetry; exact Hv|exact (Hlook _ _ Hb)]).
    rewrite Forall_lookup in Hraw. destruct (Hraw _ _ Hb) as [H0 H255]. split.
    + eapply Qle_trans; [|apply (Hmono 0 b H0)]. done.
    + eapply Qle_trans; [apply (Hmono b 255 H255)|]. done.
  - intros split. unfold load_split. rewrite <- !list_fmap_compose. done.
Qed.

End TransformProperties.

(** ** The save *)

Section SaveProperties.
Context `{T : Torch}.
Local Open Scope Z_scope.

(** X20. What is saved is what was last evaluated. A run of at least one epoch
    that saves ends with the summary of the last evaluation pass, the last
    schedule step and the save, and the summary shows the count of correct
    predictions and the average loss of the very parameters that are saved:
    neither the evaluation pass nor the schedule step moves them. *)
Theorem X20_saved_model_is_last_evaluated (args : Args) (tl tel : DataLoader) (s : StepLR)
    (w : World) :
  1 ≤ epochs args → save_model args = true →
  log_interval args ≠ 0 ∨ dataset tl = [] → dataset tel ≠ [] →
  let r := driver args tl tel s w in
  let p := params (final r) in
  let n := len (dataset tel) in
  let c := correct_count p (dataset tel) in
  ∃ evs avg a b,
    emitted r = evs ++ [Summary avg c n (100 * inject_Z c / inject_Z n)%Q;
                        ScheduleStep a b; Saved "mnist_cnn.pt" p] ∧
    (avg == Qsum (sample_nll p <$> dataset tel) / inject_Z n)%Q ∧
    files (final r) !! "mnist_cnn.pt" = Some p ∧
    outcome r = Ok tt.
Proof.
  intros HE Hsave Hli Hds. cbv zeta. rewrite driver_run. cbv zeta.
  rewrite run_epochs_for_each.
  destruct (Z.to_nat (epochs args)) as [|m] eqn:Hm; [lia|].
  rewrite seqZ_S, for_each_app.
  erewrite bind_ok.
  2:{ rewrite (run_eta (for_each _ _ _)), for_each_ok; [reflexivity|].
      intros k w'. by apply epoch_body_ok_empty. }
  set (pre := for_each (seqZ 1 (Z.of_nat m)) _ w). clearbody pre.
  cbn [for_each].
  erewrite bind_ok by (by apply epoch_body_run_ok).
  rewrite ret_run. unfold after_events. cbn [outcome final emitted]. rewrite Hsave.
  cbn [outcome final emitted].
  set (w1 := final (train args tl (1 + Z.of_nat m) (final pre))).
  destruct (test_summary tel w1 Hds) as (avg & Ht & Havg). rewrite Ht.
  cbn [final emitted].
  change (params (with_files _ _)) with (params w1).
  exists (emitted pre ++ emitted (train args tl (1 + Z.of_nat m) (final pre)) ++
          EvalPass :: (EvalBatch <$> loader_batches tel (rng w1))), avg.
  eexists _, _. split; [|split; [done|split; [|done]]].
  - rewrite app_nil_r, <- !app_assoc. cbn [app]. rewrite <- !app_assoc. reflexivity.
  - cbn [files with_files]. apply lookup_insert_eq.
Qed.

End SaveProperties.

(** ** Runs on concrete inputs *)

Import Toy Examples.
Local Open Scope Z_scope.

(** C2 as stated fails over an empty training set: [dry_run] is set,
    [log_interval] is 10, and the pass takes no batch at all. *)
Lemma C2_counterexample :
  dry_run args_dry = true ∧ 1 ≤ log_interval args_dry ∧
  train_batches (emitted (train args_dry empty_ld 1 ready)) = [] ∧
  length (train_batches (emitted (train args_dry empty_ld 1 ready))) ≠ 1%nat ∧
  outcome (train args_dry empty_ld 1 ready) = Ok tt.
Proof. vm_compute. repeat split; try done. Qed.

(** C2 at ten training samples in batches of four. *)
Lemma C2_dry_run_first_batch_only_witness :
  dry_run args_dry = true ∧ 1 ≤ log_interval args_dry ∧
  outcome (train args_dry train_ld 1 ready) = Ok tt ∧
  train_batches (emitted (train args_dry train_ld 1 ready)) =
    (λ b, (1, 0, b)) <$> take 1 (loader_batches train_ld (rng ready)).
Proof.
  assert (dry_run args_dry = true) as H1 by reflexivity.
  assert (1 ≤ log_interval args_dry) as H2 by (simpl; lia).
  split; [exact H1|]. split; [exact H2|].
  destruct (C2_dry_run_first_batch_only args_dry train_ld test_ld sched 1 ready H1 H2)
    as (Ho & Hb & _).
  split; [exact Ho|exact Hb].
Defined.

(** C3 at three evaluation samples in batches of two. *)
Lemma C3_average_loss_witness :
  dataset test_ld ≠ [] ∧ outcome (test test_ld ready) = Ok tt.
Proof.
  assert (dataset test_ld ≠ []) as H by (vm_compute; discriminate).
  split; [exact H|].
  destruct (C3_average_loss test_ld ready H) as (cum & c & pct & _ & _ & Ho & _).
  exact Ho.
Defined.

(** C10 at [epochs = 0] with [save_model] set. *)
Lemma C10_no_epochs_witness :
  epochs args_no_epochs ≤ 0 ∧
  emitted (driver args_no_epochs train_ld test_ld sched ready) =
    [Saved "mnist_cnn.pt" (params ready)].
Proof.
  assert (epochs args_no_epochs ≤ 0) as H by (simpl; lia).
  split; [exact H|].
  destruct (C10_no_epochs args_no_epochs train_ld test_ld sched ready H)
    as (_ & _ & _ & _ & _ & He & _).
  exact He.
Defined.

(** C4 as stated fails on both paths: without the accelerator the training
    loader does not shuffle, and the two epochs of a run take the training
    batches in dataset order; with it the evaluation loader shuffles, and the
    evaluation batches are those of the permuted split. *)
Lemma C4_counterexample :
  (∃ tl, new_DataLoader (load_split (train_raw env_cpu)) (train_kwargs default_args env_cpu)
           = Ok tl ∧ ld_shuffle tl = false) ∧
  (∃ tel, new_DataLoader (load_split (test_raw env_cuda)) (test_kwargs default_args env_cuda)
            = Ok tel ∧ ld_shuffle tel = true) ∧
  (train_batches (emitted (main args_small env_cpu blank))).*2 =
    chunks 4 (load_split (train_raw env_cpu)) ++ chunks 4 (load_split (train_raw env_cpu)) ∧
  eval_batches (emitted (main args_small env_cuda blank)) =
    chunks 2 (reverse (load_split (test_raw env_cuda))) ++
    chunks 2 (reverse (load_split (test_raw env_cuda))).
Proof.
  split; [|split; [|split]].
  - eexists. split; reflexivity.
  - eexists. split; reflexivity.
  - vm_compute. reflexivity.
  - vm_compute. reflexivity.
Qed.

(** C6. Ten training samples in batches of four, every batch logged: the
    batches have 4, 4 and 2 samples, and the progress line of the last one
    reports 4 samples (2 * 2) where 8 had been processed before that batch
    and 10 with it. *)
Lemma C6_sample_count_on_short_last_batch :
  let r := train args_small train_ld 1 ready in
  let batches := loader_batches train_ld (rng ready) in
  length <$> batches = [4; 4; 2]%nat ∧
  outcome r = Ok tt ∧
  (∃ pct loss, progress_lines (emitted r) !! 2%nat = Some (Progress 1 4 10 pct loss)) ∧
  samples_before batches 2 = 8 ∧ samples_through batches 2 = 10.
Proof.
  cbv zeta. split; [|split; [|split; [|split]]]; try (vm_compute; reflexivity).
  eexists _, _. vm_compute. reflexivity.
Qed.

(** A complete run: two epochs, each a training pass over three batches,
    an evaluation pass and a schedule step, then the save. *)
Example full_run_small :
  let r := main args_small env_cpu blank in
  outcome r = Ok tt ∧
  shape (emitted r) = [PTrain 1; PEval; PSchedule; PTrain 2; PEval; PSchedule;
                       PSave "mnist_cnn.pt"] ∧
  schedule_steps (emitted r) = [(1, 7 # 10); (7 # 10, 49 # 100)]%Q ∧
  length (train_batches (emitted r)) = 6%nat.
Proof. vm_compute. repeat split. Qed.

(** A log interval of 0: the first [batch_idx % log_interval] raises, after
    one optimizer step, and nothing is saved. *)
Example run_log_interval_zero :
  let r := main args_log0 env_cpu blank in
  outcome r = Raise ZeroDivisionError ∧
  shape (emitted r) = [PTrain 1] ∧ length (train_batches (emitted r)) = 1%nat ∧
  saves (emitted r) = [] ∧ files (final r) = ∅.
Proof. vm_compute. repeat split. Qed.

(** ** The further properties on concrete inputs *)

(** X1 at ten training samples in batches of four: three steps. *)
Lemma X1_train_visits_every_batch_witness :
  dry_run args_small = false ∧ log_interval args_small ≠ 0 ∧
  outcome (train args_small train_ld 1 ready) = Ok tt ∧
  len (train_batches (emitted (train args_small train_ld 1 ready))) = loader_len train_ld.
Proof.
  assert (dry_run args_small = false) as H1 by reflexivity.
  assert (log_interval args_small ≠ 0) as H2 by (simpl; lia).
  split; [exact H1|]. split; [exact H2|].
  destruct (X1_train_visits_every_batch args_small train_ld 1 ready H1 H2)
    as (Ho & _ & Hn & _).
  split; [exact Ho|exact Hn].
Defined.

(** X3 at a log interval of 0 over the ten training samples. *)
Lemma X3_train_log_interval_zero_witness :
  log_interval args_log0 = 0 ∧
  ∃ b rest, loader_batches train_ld (rng ready) = b :: rest ∧
    outcome (train args_log0 train_ld 1 ready) = Raise ZeroDivisionError.
Proof.
  assert (log_interval args_log0 = 0) as H1 by reflexivity.
  assert (dataset train_ld ≠ []) as H2 by (vm_compute; discriminate).
  split; [exact H1|].
  destruct (X3_train_log_interval_zero args_log0 train_ld 1 ready H1) as [_ Hne].
  destruct (Hne H2) as (b & rest & Hb & Hr).
  exists b, rest. split; [exact Hb|]. rewrite Hr. reflexivity.
Defined.

(** X4 at the log intervals 2 and -2. *)
Lemma X4_train_reads_two_arguments_witness :
  dry_run args_neg = dry_run args_pos ∧ log_interval args_neg = - log_interval args_pos ∧
  train args_neg train_ld 1 ready = train args_pos train_ld 1 ready.
Proof.
  assert (dry_run args_neg = dry_run args_pos) as H1 by reflexivity.
  assert (log_interval args_neg = - log_interval args_pos) as H2 by reflexivity.
  split; [exact H1|]. split; [exact H2|].
  exact (X4_train_reads_two_arguments args_pos args_neg train_ld 1 ready H1 (or_intror H2)).
Defined.

(** X5 at a log interval of 2 over three batches: the batches 0 and 2 are
    logged. *)
Lemma X5_train_progress_lines_witness :
  dry_run args_pos = false ∧ log_interval args_pos ≠ 0 ∧
  Forall2 (progress_line_of train_ld 1 0 (loader_batches train_ld (rng ready)))
    (progress_lines (emitted (train args_pos train_ld 1 ready)))
    (logged_indices 2 0 3).
Proof.
  assert (dry_run args_pos = false) as H1 by reflexivity.
  assert (log_interval args_pos ≠ 0) as H2 by (simpl; lia).
  split; [exact H1|]. split; [exact H2|].
  destruct (X5_train_progress_lines args_pos train_ld 1 ready H1 H2) as (Hl & _).
  exact Hl.
Defined.


(** X7 at the log intervals 1 and 2. *)
Lemma X7_train_result_independent_of_logging_witness :
  dry_run args_small = false ∧ dry_run args_pos = false ∧
  log_interval args_small ≠ 0 ∧ log_interval args_pos ≠ 0 ∧
  final (train args_small train_ld 1 ready) = final (train args_pos train_ld 1 ready).
Proof.
  assert (dry_run args_small = false) as H1 by reflexivity.
  assert (dry_run args_pos = false) as H2 by reflexivity.
  assert (log_interval args_small ≠ 0) as H3 by (simpl; lia).
  assert (log_interval args_pos ≠ 0) as H4 by (simpl; lia).
  split; [exact H1|]. split; [exact H2|]. split; [exact H3|]. split; [exact H4|].
  destruct (X7_train_result_independent_of_logging args_small args_pos train_ld 1 ready
              H1 H2 H3 H4) as (_ & _ & Hf & _).
  exact Hf.
Defined.

(** X9 at three evaluation samples. *)
Lemma X9_test_reports_correct_count_witness :
  dataset test_ld ≠ [] ∧ outcome (test test_ld ready) = Ok tt ∧
  ∃ avg, last (emitted (test test_ld ready)) =
    Some (Summary avg (correct_count (params ready) (dataset test_ld)) 3
            (100 * inject_Z (correct_count (params ready) (dataset test_ld)) / inject_Z 3)%Q).
Proof.
  assert (dataset test_ld ≠ []) as H by (vm_compute; discriminate).
  split; [exact H|].
  destruct (X9_test_reports_correct_count test_ld ready H) as (Ho & Hl & _).
  split; [exact Ho|exact Hl].
Defined.

(** X10 at batches of two in dataset order against batches of three,
    shuffled. *)
Lemma X10_test_independent_of_batching_witness :
  dataset test_ld ≡ₚ dataset (loader 3 true (test_raw env_cpu)) ∧
  params ready = params blank ∧ dataset test_ld ≠ [] ∧
  ∃ avg1 avg2 c n pct,
    last (emitted (test test_ld ready)) = Some (Summary avg1 c n pct) ∧
    last (emitted (test (loader 3 true (test_raw env_cpu)) blank)) =
      Some (Summary avg2 c n pct) ∧
    (avg1 == avg2)%Q.
Proof.
  assert (dataset test_ld ≡ₚ dataset (loader 3 true (test_raw env_cpu))) as H1
    by reflexivity.
  assert (params ready = params blank) as H2 by reflexivity.
  assert (dataset test_ld ≠ []) as H3 by (vm_compute; discriminate).
  split; [exact H1|]. split; [exact H2|]. split; [exact H3|].
  exact (X10_test_independent_of_batching test_ld (loader 3 true (test_raw env_cpu))
           ready blank H1 H2 H3).
Defined.

(** X11 at the empty loader. *)
Lemma X11_test_empty_split_witness :
  dataset empty_ld = [] ∧ outcome (test empty_ld ready) = Raise ZeroDivisionError ∧
  emitted (test empty_ld ready) = [EvalPass].
Proof.
  assert (dataset empty_ld = []) as H by reflexivity.
  split; [exact H|].
  destruct (X11_test_empty_split empty_ld ready H) as (Ho & He & _).
  split; [exact Ho|exact He].
Defined.

(** X14 with and without an accelerator. *)
Lemma X14_no_cuda_ignores_accelerator_witness :
  no_cuda args_no_cuda = true ∧ train_raw env_cuda = train_raw env_cpu ∧
  test_raw env_cuda = test_raw env_cpu ∧
  main args_no_cuda env_cuda blank = main args_no_cuda env_cpu blank.
Proof.
  assert (no_cuda args_no_cuda = true) as H1 by reflexivity.
  assert (train_raw env_cuda = train_raw env_cpu) as H2 by reflexivity.
  assert (test_raw env_cuda = test_raw env_cpu) as H3 by reflexivity.
  split; [exact H1|]. split; [exact H2|]. split; [exact H3|].
  destruct (X14_no_cuda_ignores_accelerator args_no_cuda env_cpu env_cuda blank H1 H2 H3)
    as (_ & _ & _ & Hm).
  exact Hm.
Defined.

(** X17 at two epochs over three training and two evaluation batches. *)
Lemma X17_run_step_counts_witness :
  log_interval args_small ≠ 0 ∧ dataset test_ld ≠ [] ∧
  len (train_batches (emitted (driver args_small train_ld test_ld sched ready))) =
    Z.max 0 (epochs args_small) * loader_len train_ld ∧
  len (eval_batches (emitted (driver args_small train_ld test_ld sched ready))) =
    Z.max 0 (epochs args_small) * loader_len test_ld.
Proof.
  assert (log_interval args_small ≠ 0) as H1 by (simpl; lia).
  assert (dataset test_ld ≠ []) as H2 by (vm_compute; discriminate).
  split; [exact H1|]. split; [exact H2|].
  destruct (X17_run_step_counts args_small train_ld test_ld sched ready H1 H2)
    as (_ & Ht & He).
  split; [exact Ht|exact He].
Defined.

(** X18 at two epochs with [lr = 1] and [gamma = 0.7]. *)
Lemma X18_run_final_schedule_witness :
  outcome (main args_small env_cpu blank) = Ok tt ∧
  (cur_lr (final (main args_small env_cpu blank)) == 1 * (7 # 10) ^ 2)%Q ∧
  last_epoch (final (main args_small env_cpu blank)) = 2.
Proof.
  assert (outcome (main args_small env_cpu blank) = Ok tt) as H by (vm_compute; reflexivity).
  split; [exact H|].
  exact (X18_run_final_schedule args_small env_cpu blank H).
Defined.

(** X19 at [gamma = 0.7]. *)
Lemma X19_learning_rate_never_increases_witness :
  (0 <= gamma args_small <= 1)%Q ∧
  ∀ j a b, schedule_steps (emitted (main args_small env_cpu blank)) !! j = Some (a, b) →
    (0 <= b)%Q ∧ (b <= a)%Q ∧ (a <= lr args_small)%Q.
Proof.
  assert (0 <= gamma args_small <= 1)%Q as H by (split; vm_compute; discriminate).
  split; [exact H|].
  destruct (X19_learning_rate_never_increases args_small env_cpu blank H) as (Hs & _).
  exact Hs.
Defined.

(** X20 at two epochs with [save_model] set. *)
Lemma X20_saved_model_is_last_evaluated_witness :
  1 ≤ epochs args_small ∧ save_model args_small = true ∧
  (log_interval args_small ≠ 0 ∨ dataset train_ld = []) ∧ dataset test_ld ≠ [] ∧
  files (final (driver args_small train_ld test_ld sched ready)) !! "mnist_cnn.pt" =
    Some (params (final (driver args_small train_ld test_ld sched ready))).
Proof.
  assert (1 ≤ epochs args_small) as H1 by (simpl; lia).
  assert (save_model args_small = true) as H2 by reflexivity.
  assert (log_interval args_small ≠ 0 ∨ dataset train_ld = []) as H3 by (left; simpl; lia).
  assert (dataset test_ld ≠ []) as H4 by (vm_compute; discriminate).
  split; [exact H1|]. split; [exact H2|]. split; [exact H3|]. split; [exact H4|].
  destruct (X20_saved_model_is_last_evaluated args_small train_ld test_ld sched ready
              H1 H2 H3 H4) as (evs & avg & a & b & _ & _ & Hf & _).
  exact Hf.
Defined.
